(** * Local-folder ingestion: connector and watcher

    A shallow embedding of

    - [common/data_source/local_folder_connector.py]
      (class [LocalFolderConnector]: validation of the configured folder,
      enumeration, document construction, batching), and
    - [example/local_folder_watcher.py]
      (class [FileChangeHandler]: debounced change detection and upload),

    together with the properties of the specification that concern them.

    Conventions.  Python exceptions are values of [exn] carried by
    [result]; the operating system is a record of oracles ([world]) that
    answer the system calls the code makes; byte strings are [list byte];
    timestamps are integers (ticks of the clock); a generator is modelled by
    the list of values it yields.

    Assumptions.  One call of a method sees one state of the outside world:
    when [_create_document] or [_sync_file_to_ragflow] opens the same file
    several times, every read returns the same bytes.  The conversions of
    timestamps ([datetime.fromtimestamp]) are exact and succeed, and file
    names can be encoded, so that the only exceptions of the operating
    system are [OSError]s.  The callbacks of the observer and the drain
    cycles of the main loop are taken one at a time
    ([FileChangeHandler.run]). *)

From Equations Require Import Equations.
From Stdlib Require Import ZArith List String Ascii Strings.Byte Lia Bool.
From stdpp Require Import gmap strings.
Import ListNotations.

Set Default Proof Using "Type".

Abbreviation bytes := (list byte).

(** ** Python exceptions *)

Inductive exn : Type :=
| OSError
| ConnectorValidationError (msg : string)
| ConnectorMissingCredentialError (msg : string).

Inductive result (A : Type) : Type :=
| Ok (a : A)
| Raise (e : exn).
Arguments Ok {A} a.
Arguments Raise {A} e.

(** Sequencing: the first exception raised ends the computation. *)
#[global] Instance result_bind : MBind result :=
  fun A B (k : A -> result B) (r : result A) =>
    match r with
    | Ok a => k a
    | Raise e => Raise e
    end.
#[global] Instance result_ret : MRet result := fun A a => Ok a.

Definition of_option {A} (o : option A) (e : exn) : result A :=
  match o with
  | Some a => Ok a
  | None => Raise e
  end.

(** ** SHA-256 (FIPS 180-4), the algorithm behind [hashlib.sha256] *)

Module SHA256.
Local Open Scope Z_scope.

Definition mask32 (x : Z) : Z := x mod 2 ^ 32.
Definition add32 (x y : Z) : Z := mask32 (x + y).
Definition rotr (n x : Z) : Z :=
  Z.lor (Z.shiftr x n) (mask32 (Z.shiftl x (32 - n))).
Definition shr (n x : Z) : Z := Z.shiftr x n.

Definition Ch (x y z : Z) : Z :=
  Z.lxor (Z.land x y) (Z.land (mask32 (Z.lnot x)) z).
Definition Maj (x y z : Z) : Z :=
  Z.lxor (Z.lxor (Z.land x y) (Z.land x z)) (Z.land y z).
Definition Sigma0 (x : Z) : Z := Z.lxor (Z.lxor (rotr 2 x) (rotr 13 x)) (rotr 22 x).
Definition Sigma1 (x : Z) : Z := Z.lxor (Z.lxor (rotr 6 x) (rotr 11 x)) (rotr 25 x).
Definition sigma0 (x : Z) : Z := Z.lxor (Z.lxor (rotr 7 x) (rotr 18 x)) (shr 3 x).
Definition sigma1 (x : Z) : Z := Z.lxor (Z.lxor (rotr 17 x) (rotr 19 x)) (shr 10 x).

(** The constants of the standard are the first 32 bits of the
    fractional parts of the cube roots (for [K]) and of the square roots
    (for [H0]) of the first prime numbers. *)
Definition is_prime (p : Z) : bool :=
  forallb (fun d => negb (p mod Z.of_nat d =? 0))
          (seq 2 (Z.to_nat p - 2)).

Definition primes (n : nat) : list Z :=
  firstn n (List.filter is_prime (map Z.of_nat (seq 2 400))).

(** Largest [r] below [2 ^ 40] with [r ^ 3 <= n], found bit by bit. *)
Definition cube_root (n : Z) : Z :=
  fold_left
    (fun r b => let r' := r + 2 ^ Z.of_nat b in
                if r' ^ 3 <=? n then r' else r)
    (rev (seq 0 40)) 0.

Definition cube_root_bits (p : Z) : Z := cube_root (p * 2 ^ 96) mod 2 ^ 32.
Definition square_root_bits (p : Z) : Z := Z.sqrt (p * 2 ^ 64) mod 2 ^ 32.

Definition K : list Z := Eval vm_compute in map cube_root_bits (primes 64).

(** The eight working registers a..h, also the chaining value. *)
Definition regs : Type := (Z * Z * Z * Z * Z * Z * Z * Z)%type.

Definition H0 : regs :=
  Eval vm_compute in
    match map square_root_bits (primes 8) with
    | [a; b; c; d; e; f; g; h] => (a, b, c, d, e, f, g, h)
    | _ => (0, 0, 0, 0, 0, 0, 0, 0)
    end.

Definition byte_to_Z (b : byte) : Z := Z.of_N (Byte.to_N b).

Definition byte_of_Z (z : Z) : byte :=
  match Byte.of_N (Z.to_N (z mod 256)) with
  | Some b => b
  | None => x00
  end.

(** Big-endian 32-bit words of a block. *)
Fixpoint words_of_bytes (l : bytes) : list Z :=
  match l with
  | a :: b :: c :: d :: r =>
      (byte_to_Z a * 2 ^ 24 + byte_to_Z b * 2 ^ 16 + byte_to_Z c * 2 ^ 8
       + byte_to_Z d) :: words_of_bytes r
  | _ => []
  end.

Definition bytes_of_word (w : Z) : bytes :=
  [ byte_of_Z (Z.shiftr w 24); byte_of_Z (Z.shiftr w 16);
    byte_of_Z (Z.shiftr w 8); byte_of_Z w ].

(** Message schedule; [w] holds the words computed so far, latest first. *)
Fixpoint schedule (n : nat) (w : list Z) : list Z :=
  match n with
  | O => w
  | S n' =>
      let wt := add32 (add32 (add32 (sigma1 (nth 1 w 0)) (nth 6 w 0))
                             (sigma0 (nth 14 w 0))) (nth 15 w 0) in
      schedule n' (wt :: w)
  end.

Definition round (s : regs) (kw : Z * Z) : regs :=
  let '(a, b, c, d, e, f, g, h) := s in
  let '(k, w) := kw in
  let t1 := add32 (add32 (add32 (add32 h (Sigma1 e)) (Ch e f g)) k) w in
  let t2 := add32 (Sigma0 a) (Maj a b c) in
  (add32 t1 t2, a, b, c, add32 d t1, e, f, g).

Definition compress (s : regs) (block : bytes) : regs :=
  let w := rev (schedule 48 (rev (words_of_bytes block))) in
  let '(a, b, c, d, e, f, g, h) := fold_left round (combine K w) s in
  let '(a0, b0, c0, d0, e0, f0, g0, h0) := s in
  (add32 a0 a, add32 b0 b, add32 c0 c, add32 d0 d,
   add32 e0 e, add32 f0 f, add32 g0 g, add32 h0 h).

(** Padding for a message of [len] bytes: 0x80, zeros up to 56 mod 64,
    then the bit length as a 64-bit big-endian integer. *)
Definition padding (len : nat) : bytes :=
  let bits := 8 * Z.of_nat len in
  x80 :: repeat x00 (Z.to_nat ((55 - Z.of_nat len) mod 64))
    ++ bytes_of_word (Z.shiftr bits 32) ++ bytes_of_word bits.

Equations? blocks (l : bytes) : list bytes by wf (length l) lt :=
  blocks [] := [];
  blocks (b :: l) := firstn 64 (b :: l) :: blocks (skipn 64 (b :: l)).
Proof. rewrite length_skipn. cbn [length]. lia. Qed.

Definition regs_bytes (s : regs) : bytes :=
  let '(a, b, c, d, e, f, g, h) := s in
  flat_map bytes_of_word [a; b; c; d; e; f; g; h].

(** The digest of a whole message. *)
Definition sha256 (msg : bytes) : bytes :=
  regs_bytes (fold_left compress (blocks (msg ++ padding (length msg))) H0).

Definition hex_digit (n : Z) : ascii :=
  nth (Z.to_nat n)
      (list_ascii_of_string "0123456789abcdef") "0"%char.

Fixpoint hex (l : bytes) : string :=
  match l with
  | [] => EmptyString
  | b :: r =>
      String (hex_digit (byte_to_Z b / 16))
        (String (hex_digit (byte_to_Z b mod 16)) (hex r))
  end.

Definition sha256_hex (msg : bytes) : string := hex (sha256 msg).

End SHA256.

(** ** The [hashlib.sha256()] object

    The object absorbs the bytes it is fed into a 64-byte buffer and
    compresses the buffer each time it fills; [hexdigest] pads a copy of the
    state and prints the registers. *)

Module hashlib.

Record hasher : Type := {
  state : SHA256.regs;
  buffer : bytes;
  count : nat;
}.

Definition sha256 : hasher :=
  {| state := SHA256.H0; buffer := []; count := 0 |}.

Definition update_byte (s : hasher) (b : byte) : hasher :=
  let buf := buffer s ++ [b] in
  if Nat.eqb (length buf) 64
  then {| state := SHA256.compress (state s) buf; buffer := [];
          count := S (count s) |}
  else {| state := state s; buffer := buf; count := S (count s) |}.

Definition update (s : hasher) (data : bytes) : hasher :=
  fold_left update_byte data s.

Definition digest (s : hasher) : bytes :=
  SHA256.regs_bytes (state (update s (SHA256.padding (count s)))).

Definition hexdigest (s : hasher) : string := SHA256.hex (digest s).

End hashlib.

(** ** [os.path] on POSIX *)

Module os_path.
Local Open Scope string_scope.

Definition sep : ascii := "/"%char.

(** [s.split(c)] *)
Fixpoint split_on (c : ascii) (s : string) : list string :=
  match s with
  | EmptyString => [EmptyString]
  | String a r =>
      if Ascii.eqb a c then EmptyString :: split_on c r
      else match split_on c r with
           | x :: xs => String a x :: xs
           | [] => [String a EmptyString]
           end
  end.

(** [s.split('/')] *)
Definition split (s : string) : list string := split_on sep s.

(** ['/'.join(comps)] *)
Fixpoint join_sep (comps : list string) : string :=
  match comps with
  | [] => ""
  | [c] => c
  | c :: cs => c ++ "/" ++ join_sep cs
  end.

Definition startswith (s p : string) : bool := String.prefix p s.

Fixpoint endswith_sep (s : string) : bool :=
  match s with
  | EmptyString => false
  | String c EmptyString => Ascii.eqb c sep
  | String _ r => endswith_sep r
  end.

Definition isabs (path : string) : bool := startswith path "/".

(** [posixpath.join(a, b)] *)
Definition join (a b : string) : string :=
  if startswith b "/" then b
  else if String.eqb a "" || endswith_sep a then a ++ b
  else a ++ "/" ++ b.

(** One iteration of the loop of [posixpath.normpath] over the components. *)
Definition norm_step (initial_slashes : nat) (new_comps : list string)
    (comp : string) : list string :=
  if String.eqb comp "" || String.eqb comp "." then new_comps
  else if negb (String.eqb comp "..")
          || (Nat.eqb initial_slashes 0 && Nat.eqb (length new_comps) 0)
          || (negb (Nat.eqb (length new_comps) 0)
              && String.eqb (List.last new_comps "") "..")
  then new_comps ++ [comp]
  else removelast new_comps.

Definition normpath (path : string) : string :=
  if String.eqb path "" then "."
  else
    let initial_slashes :=
      if startswith path "/"
      then if startswith path "//" && negb (startswith path "///")
           then 2%nat else 1%nat
      else 0%nat in
    let comps := fold_left (norm_step initial_slashes) (split path) [] in
    let path := join_sep comps in
    let path :=
      match initial_slashes with
      | 0%nat => path
      | 1%nat => "/" ++ path
      | _ => "//" ++ path
      end in
    if String.eqb path "" then "." else path.

(** [os.path.abspath(path)], with the current directory [cwd]. *)
Definition abspath (cwd path : string) : string :=
  if isabs path then normpath path else normpath (join cwd path).

(** [os.path.basename(p)]: what follows the last slash. *)
Definition basename (p : string) : string := List.last (split p) "".

End os_path.

(** ** The operating system as seen by the code *)

Inductive file_kind : Type := RegularFile | Directory | OtherKind.

Record stat_result : Type := {
  st_kind : file_kind;
  st_size : Z;
  st_mtime : Z;
  st_ctime : Z;
  st_uid : Z;
}.

(** An entry of a directory listing.  [EntDir] carries the listing of the
    sub-directory, or [false] when reading it raises [OSError];
    [EntBroken] is an entry whose type cannot be determined
    ([is_file()] and [is_dir()] raise [OSError]). *)
#[warnings="-register-all"]
Inductive dirent : Type :=
| EntFile (name : string)
| EntOther (name : string)
| EntBroken (name : string)
| EntDir (name : string) (readable : bool) (sub : list dirent).

Definition ent_name (e : dirent) : string :=
  match e with
  | EntFile n | EntOther n | EntBroken n | EntDir n _ _ => n
  end.

(** [entry.is_file()] *)
Definition is_file (e : dirent) : result bool :=
  match e with
  | EntFile _ => Ok true
  | EntOther _ | EntDir _ _ _ => Ok false
  | EntBroken _ => Raise OSError
  end.

(** [is_dir] as [os.walk] computes it: an [OSError] counts as "not a
    directory". *)
Definition walk_is_dir (e : dirent) : bool :=
  match e with
  | EntDir _ _ _ => true
  | _ => false
  end.

Record response : Type := {
  status_code : Z;
  text : string;
}.

Inductive value : Type :=
| VStr (s : string)
| VInt (n : Z).

(** A Python [dict] with string keys, in insertion order. *)
Abbreviation pydict := (list (string * value)).

Fixpoint dict_get {V} (d : list (string * V)) (k : string) : option V :=
  match d with
  | [] => None
  | (k', v) :: r => if String.eqb k' k then Some v else dict_get r k
  end.

(** [d[k] = v]: an existing key keeps its place, a new key goes last. *)
Fixpoint dict_set {V} (d : list (string * V)) (k : string) (v : V)
    : list (string * V) :=
  match d with
  | [] => [(k, v)]
  | (k', v') :: r =>
      if String.eqb k' k then (k, v) :: r else (k', v') :: dict_set r k v
  end.

(** [del d[k]]: the key is removed (the code only deletes keys it has
    just read, so the [KeyError] of an absent key never arises). *)
Definition dict_del {V} (d : list (string * V)) (k : string)
    : list (string * V) :=
  List.filter (fun kv => negb (String.eqb (fst kv) k)) d.

(** The multipart upload handed to [requests.post]. *)
Record request : Type := {
  url : string;
  file_name : string;
  file_content : bytes;
  data_kb_id : string;
  data_metadata : string;
  authorization : string;
  timeout : Z;
}.

Record world : Type := {
  (** [time.time()] *)
  time : Z;
  (** [os.getcwd()] *)
  getcwd : string;
  (** [os.scandir(path)]; [None]: it raises [OSError] *)
  scandir : string -> option (list dirent);
  (** [os.stat(path)]; [None]: it raises [OSError] *)
  stat : string -> option stat_result;
  (** the bytes [open(path, "rb")] gives access to; [None]: it raises *)
  content : string -> option bytes;
  (** [Path(folder).rglob("*")] *)
  rglob : string -> list string;
  (** [requests.post]; [None]: it raises (connection error, timeout) *)
  post : request -> option response;
}.

(** Library functions the code calls and that are taken as given. *)
Class PyLib : Type := {
  (** [fnmatch.fnmatch(filename, pattern)] *)
  fnmatch : string -> string -> bool;
  (** [common.data_source.utils.get_file_ext] *)
  get_file_ext : string -> string;
  (** [mimetypes.guess_type(path)[0]] *)
  guess_type : string -> option string;
  (** [hashlib.md5(s.encode()).hexdigest()] *)
  md5_hexdigest : string -> string;
  (** [os.path.relpath(path, start)] *)
  relpath : string -> string -> string;
  (** [json.dumps] *)
  json_dumps : pydict -> string;
  (** [datetime.fromtimestamp(t).isoformat()] *)
  isoformat : Z -> string;
  (** [DocumentSource.LOCAL_FOLDER.value] *)
  LOCAL_FOLDER : string;
}.

(** *** Files opened for reading *)

Record file_handle : Type := {
  data : bytes;
  pos : nat;
}.

Definition open_rb (w : world) (path : string) : result file_handle :=
  match content w path with
  | Some bs => Ok {| data := bs; pos := 0 |}
  | None => Raise OSError
  end.

(** [f.read(n)]: at most [n] bytes from the current position. *)
Definition read (f : file_handle) (n : nat) : bytes * file_handle :=
  let blk := firstn n (skipn (pos f) (data f)) in
  (blk, {| data := data f; pos := pos f + length blk |}).

(** [f.read()]: everything from the current position. *)
Definition read_all (f : file_handle) : bytes := skipn (pos f) (data f).

Definition remaining (f : file_handle) : nat := length (data f) - pos f.

Definition is_empty {A} (l : list A) : bool :=
  match l with
  | [] => true
  | _ => false
  end.

(** The loop [for byte_block in iter(lambda: f.read(4096), b""):
    sha256_hash.update(byte_block)]: blocks are read and absorbed until a
    read returns the empty byte string. *)
Definition inspect {A} (a : A) : {b : A | a = b} := exist _ a eq_refl.

Equations? hash_blocks (f : file_handle) (h : hashlib.hasher)
    : hashlib.hasher by wf (remaining f) lt :=
  hash_blocks f h with inspect (read f 4096) := {
    | exist _ ([], _) _ := h;
    | exist _ (b :: blk, f') Heq :=
        hash_blocks f' (hashlib.update h (b :: blk)) }.
Proof.
  unfold read in Heq. inversion Heq as [[E Hf]]; clear Heq.
  unfold remaining; cbn [data pos]. rewrite E.
  assert (Hlen : pos f < length (data f)).
  { destruct (Nat.lt_ge_cases (pos f) (length (data f))) as [|Hge]; [done|].
    rewrite skipn_all2 in E by lia. discriminate. }
  cbn [length]. lia.
Qed.

(** *** [os.walk(top)] with its default arguments

    Top-down; [onerror] is [None], so a directory that cannot be read
    contributes nothing and raises nothing. *)

Definition walk_item : Type := (string * list string * list string)%type.

Definition dirnames (es : list dirent) : list string :=
  map ent_name (List.filter walk_is_dir es).

Definition nondirnames (es : list dirent) : list string :=
  map ent_name (List.filter (fun e => negb (walk_is_dir e)) es).

Fixpoint walk_sub (top : string) (e : dirent) : list walk_item :=
  match e with
  | EntDir name readable sub =>
      if readable
      then let top' := os_path.join top name in
           (top', dirnames sub, nondirnames sub)
             :: flat_map (walk_sub top') sub
      else []
  | _ => []
  end.

Definition walk (w : world) (top : string) : list walk_item :=
  match scandir w top with
  | None => []
  | Some es => (top, dirnames es, nondirnames es) :: flat_map (walk_sub top) es
  end.

(** ** [LocalFolderConnector] *)

Record Document : Type := {
  id : string;
  source : string;
  semantic_identifier : string;
  extension : string;
  blob : bytes;
  doc_updated_at : Z;
  size_bytes : Z;
  metadata : pydict;
}.

Module LocalFolderConnector.
Section connector.
Context `{!PyLib}.
Local Open Scope string_scope.

Record t : Type := {
  folder_path : string;
  recursive : bool;
  file_patterns : list string;
  compute_hash : bool;
  batch_size : Z;
  allowed_base_path : string;
}.

(** [__init__]; the defaults of the source are [recursive=True],
    [file_patterns=None], [compute_hash=True],
    [batch_size=INDEX_BATCH_SIZE],
    [allowed_base_path="/ragflow/mounted_data"]. *)
Definition __init__ (w : world) (folder_path : string) (recursive : bool)
    (file_patterns : option (list string)) (compute_hash : bool)
    (batch_size : Z) (allowed_base_path : string) : result t :=
  let self_folder_path := os_path.abspath (getcwd w) folder_path in
  let self_allowed_base_path :=
    os_path.abspath (getcwd w) allowed_base_path in
  if negb (os_path.startswith self_folder_path self_allowed_base_path)
  then Raise (ConnectorValidationError
                ("Folder path must be within " ++ self_allowed_base_path))
  else Ok {| folder_path := self_folder_path;
             recursive := recursive;
             file_patterns := default [] file_patterns;
             compute_hash := compute_hash;
             batch_size := batch_size;
             allowed_base_path := self_allowed_base_path |}.

Definition _compute_file_hash (w : world) (file_path : string)
    : result string :=
  f ← open_rb w file_path;
  mret (hashlib.hexdigest (hash_blocks f hashlib.sha256)).

Definition _should_include_file (self : t) (file_path : string) : bool :=
  if is_empty self.(file_patterns) then true
  else
    let filename := os_path.basename file_path in
    existsb (fnmatch filename) self.(file_patterns).

(** The modification-time filter of [_list_files]; [mtime] is the outcome
    of reading the modification time.  [true]: the file is kept. *)
Definition mtime_filter (start_time end_time : option Z)
    (mtime : result Z) : bool :=
  if bool_decide (is_Some start_time) || bool_decide (is_Some end_time)
  then match mtime with
       | Ok m =>
           negb (from_option (fun s => Z.ltb m s) false start_time)
           && negb (from_option (fun e => Z.gtb m e) false end_time)
       | Raise _ => false
       end
  else true.

Definition getmtime (w : world) (path : string) : result Z :=
  st ← of_option (stat w path) OSError; mret (st_mtime st).

(** Body of the loop over the entries of [os.scandir]: the list of files
    kept so far is extended, or an [OSError] escapes. *)
Fixpoint scan_entries (self : t) (w : world)
    (start_time end_time : option Z) (es : list dirent) (files : list string)
    : result (list string) :=
  match es with
  | [] => Ok files
  | entry :: es' =>
      match is_file entry with
      | Raise e => Raise e
      | Ok true =>
          let file_path :=
            os_path.join self.(folder_path) (ent_name entry) in
          if negb (_should_include_file self file_path)
          then scan_entries self w start_time end_time es' files
          else if mtime_filter start_time end_time (getmtime w file_path)
          then scan_entries self w start_time end_time es'
                 (files ++ [file_path])%list
          else scan_entries self w start_time end_time es' files
      | Ok false => scan_entries self w start_time end_time es' files
      end
  end.

Definition _list_files (self : t) (w : world)
    (start_time end_time : option Z) : result (list string) :=
  if self.(recursive) then
    Ok (flat_map
          (fun '(root, dirs, filenames) =>
             flat_map
               (fun filename =>
                  let file_path := os_path.join root filename in
                  if negb (_should_include_file self file_path) then []
                  else if mtime_filter start_time end_time
                            (getmtime w file_path)
                  then [file_path] else [])
               filenames)
          (walk w self.(folder_path)))
  else
    match scandir w self.(folder_path) with
    | None => Raise (ConnectorValidationError "Cannot access directory")
    | Some es =>
        match scan_entries self w start_time end_time es [] with
        | Ok files => Ok files
        | Raise OSError =>
            Raise (ConnectorValidationError "Cannot access directory")
        | Raise e => Raise e
        end
    end.

Definition _get_mime_type (file_path : string) : string :=
  default "application/octet-stream" (guess_type file_path).

Definition _create_document (self : t) (w : world) (file_path : string)
    : result Document :=
  stat_info ← of_option (stat w file_path) OSError;
  let file_size := st_size stat_info in
  let mtime := st_mtime stat_info in
  f ← open_rb w file_path;
  let blob := read_all f in
  doc_id ←
    (if self.(compute_hash)
     then file_hash ← _compute_file_hash w file_path;
          mret ("local_folder_" ++ file_hash)
     else
       let rel_path := relpath file_path self.(folder_path) in
       mret ("local_folder_" ++ md5_hexdigest rel_path));
  let extension := get_file_ext file_path in
  let rel_path := relpath file_path self.(folder_path) in
  let semantic_identifier := os_path.basename file_path in
  let metadata :=
    [ ("source_path", VStr file_path);
      ("relative_path", VStr rel_path);
      ("folder_path", VStr self.(folder_path));
      ("file_size", VInt file_size);
      ("mime_type", VStr (_get_mime_type file_path)) ] in
  metadata ←
    (if self.(compute_hash)
     then checksum ← _compute_file_hash w file_path;
          mret (dict_set (dict_set metadata "checksum" (VStr checksum))
                         "checksum_algorithm" (VStr "SHA-256"))
     else mret metadata);
  mret {| id := doc_id;
          source := LOCAL_FOLDER;
          semantic_identifier := semantic_identifier;
          extension := extension;
          blob := blob;
          doc_updated_at := mtime;
          size_bytes := file_size;
          metadata := metadata |}.

(** The batching loop shared, word for word, by [load_from_state] and
    [poll_source]: [batch] is the batch being filled, the result is the
    list of batches yielded, in order. *)
Fixpoint yield_batches (self : t) (w : world) (files : list string)
    (batch : list Document) : list (list Document) :=
  match files with
  | [] => if is_empty batch then [] else [batch]
  | file_path :: files' =>
      match _create_document self w file_path with
      | Ok doc =>
          let batch := (batch ++ [doc])%list in
          if (Z.of_nat (length batch) >=? self.(batch_size))%Z
          then batch :: yield_batches self w files' []
          else yield_batches self w files' batch
      | Raise _ => yield_batches self w files' batch
      end
  end.

Definition load_from_state (self : t) (w : world)
    : result (list (list Document)) :=
  files ← _list_files self w None None;
  mret (yield_batches self w files []).

Definition poll_source (self : t) (w : world) (start end_ : Z)
    : result (list (list Document)) :=
  let start_time := start in
  let end_time := end_ in
  files ← _list_files self w (Some start_time) (Some end_time);
  mret (yield_batches self w files []).

End connector.
End LocalFolderConnector.

(** ** [FileChangeHandler] (the live watcher) *)

(** What the handler does to the outside: the lines it logs and the
    uploads it issues. *)
Inductive log_line : Type :=
| ScanningInitialFiles
| ErrorScanning (path : string)
| ScannedFiles (n : nat)
| SyncingFile (path : string)
| FileUnchanged (path : string)
| SuccessfullySynced (path : string)
| FailedToSync (path : string) (status : Z)
| ErrorSyncing (path : string).

Inductive action : Type :=
| Log (l : log_line)
| Post (req : request).

Inductive event_type : Type := created | modified | deleted | moved.

(** [watchdog.events.FileSystemEvent] *)
Record FileSystemEvent : Type := {
  kind : event_type;
  is_directory : bool;
  src_path : string;
  dest_path : string;
}.

Module FileChangeHandler.
Section handler.
Context `{!PyLib}.
Local Open Scope string_scope.

Record t : Type := {
  ragflow_url : string;
  api_key : string;
  connector_id : string;
  folder_path : string;
  file_patterns : list string;
  debounce_seconds : Z;
  (** path -> hex digest of the content last synced *)
  file_hashes : gmap string string;
  (** path -> time of the last change seen, in insertion order *)
  pending_changes : list (string * Z);
}.

Definition set_file_hashes (self : t) (m : gmap string string) : t :=
  {| ragflow_url := self.(ragflow_url); api_key := self.(api_key);
     connector_id := self.(connector_id); folder_path := self.(folder_path);
     file_patterns := self.(file_patterns);
     debounce_seconds := self.(debounce_seconds);
     file_hashes := m; pending_changes := self.(pending_changes) |}.

Definition set_pending_changes (self : t) (d : list (string * Z)) : t :=
  {| ragflow_url := self.(ragflow_url); api_key := self.(api_key);
     connector_id := self.(connector_id); folder_path := self.(folder_path);
     file_patterns := self.(file_patterns);
     debounce_seconds := self.(debounce_seconds);
     file_hashes := self.(file_hashes); pending_changes := d |}.

(** [os.path.exists] and [os.path.isfile]: a failing [stat] means no. *)
Definition exists_ (w : world) (path : string) : bool :=
  bool_decide (is_Some (stat w path)).

Definition isfile (w : world) (path : string) : bool :=
  match stat w path with
  | Some st => match st_kind st with RegularFile => true | _ => false end
  | None => false
  end.

Definition _should_include_file (self : t) (file_path : string) : bool :=
  if is_empty self.(file_patterns) then true
  else
    let filename := os_path.basename file_path in
    existsb (fnmatch filename) self.(file_patterns).

Definition _compute_file_hash (w : world) (file_path : string)
    : result string :=
  f ← open_rb w file_path;
  mret (hashlib.hexdigest (hash_blocks f hashlib.sha256)).

(** One iteration of the loop of [_scan_initial_files]. *)
Definition scan_step (w : world) (acc : t * nat * list action)
    (file_path : string) : t * nat * list action :=
  let '(self, count, log) := acc in
  if isfile w file_path && _should_include_file self file_path then
    match _compute_file_hash w file_path with
    | Ok file_hash =>
        (set_file_hashes self (<[file_path := file_hash]> self.(file_hashes)),
         S count, log)
    | Raise _ => (self, count, (log ++ [Log (ErrorScanning file_path)])%list)
    end
  else acc.

Definition _scan_initial_files (w : world) (self : t) : t * list action :=
  let '(self, count, log) :=
    fold_left (scan_step w) (rglob w self.(folder_path))
      (self, 0, [Log ScanningInitialFiles]) in
  (self, (log ++ [Log (ScannedFiles count)])%list).

(** [s.rstrip('/')] *)
Fixpoint rstrip_sep (s : string) : string :=
  match s with
  | EmptyString => EmptyString
  | String c r =>
      match rstrip_sep r with
      | EmptyString =>
          if Ascii.eqb c os_path.sep then EmptyString
          else String c EmptyString
      | r' => String c r'
      end
  end.

Definition __init__ (w : world) (ragflow_url api_key connector_id
    folder_path : string) (file_patterns : option (list string))
    (debounce_seconds : Z) : t * list action :=
  _scan_initial_files w
    {| ragflow_url := rstrip_sep ragflow_url;
       api_key := api_key;
       connector_id := connector_id;
       folder_path := folder_path;
       file_patterns := default [] file_patterns;
       debounce_seconds := debounce_seconds;
       file_hashes := ∅;
       pending_changes := [] |}.

Definition _get_file_metadata (self : t) (w : world) (file_path : string)
    : result pydict :=
  stat_info ← of_option (stat w file_path) OSError;
  let mime_type := guess_type file_path in
  checksum ← _compute_file_hash w file_path;
  mret [ ("source_path", VStr file_path);
         ("relative_path", VStr (relpath file_path self.(folder_path)));
         ("folder_path", VStr self.(folder_path));
         ("file_size", VInt (st_size stat_info));
         ("mime_type", VStr (default "application/octet-stream" mime_type));
         ("created_at", VStr (isoformat (st_ctime stat_info)));
         ("modified_at", VStr (isoformat (st_mtime stat_info)));
         ("owner", VInt (st_uid stat_info));
         ("checksum", VStr checksum);
         ("checksum_algorithm", VStr "SHA-256") ].

(** The request [_sync_file_to_ragflow] builds for [requests.post]. *)
Definition upload_request (self : t) (file_path : string)
    (file_content : bytes) (metadata : pydict) : request :=
  {| url := self.(ragflow_url) ++ "/v1/document/upload";
     file_name := os_path.basename file_path;
     file_content := file_content;
     data_kb_id := self.(connector_id);
     data_metadata := json_dumps metadata;
     authorization := "Bearer " ++ self.(api_key);
     timeout := 60 |}.

(** [_sync_file_to_ragflow]: the handler afterwards and what it did.  Any
    exception inside the [try] ends in the [ErrorSyncing] line. *)
Definition _sync_file_to_ragflow (w : world) (self : t) (file_path : string)
    : t * list action :=
  let failed (done : list action) :=
    (self, (Log (SyncingFile file_path) :: done
            ++ [Log (ErrorSyncing file_path)])%list) in
  match _compute_file_hash w file_path with
  | Raise _ => failed []
  | Ok file_hash =>
      let old_hash := self.(file_hashes) !! file_path in
      if bool_decide (old_hash = Some file_hash)
      then (self, [Log (SyncingFile file_path); Log (FileUnchanged file_path)])
      else
        match _get_file_metadata self w file_path with
        | Raise _ => failed []
        | Ok metadata =>
            match open_rb w file_path with
            | Raise _ => failed []
            | Ok f =>
                let file_content := read_all f in
                let req :=
                  upload_request self file_path file_content metadata in
                match post w req with
                | None => failed [Post req]
                | Some response =>
                    if (status_code response =? 200)%Z
                    then
                      (set_file_hashes self
                         (<[file_path := file_hash]> self.(file_hashes)),
                       [Log (SyncingFile file_path); Post req;
                        Log (SuccessfullySynced file_path)])
                    else
                      (self,
                       [Log (SyncingFile file_path); Post req;
                        Log (FailedToSync file_path (status_code response))])
                end
            end
        end
  end.

Definition _handle_file_change (w : world) (self : t) (file_path : string)
    : t :=
  if negb (exists_ w file_path) then
    if bool_decide (is_Some (self.(file_hashes) !! file_path))
    then set_file_hashes self (delete file_path self.(file_hashes))
    else self
  else if negb (isfile w file_path) then self
  else if negb (_should_include_file self file_path) then self
  else set_pending_changes self
         (dict_set self.(pending_changes) file_path (time w)).

(** One iteration of the first loop of [process_pending_changes], which
    runs over a copy of the items. *)
Definition drain_step (current_time debounce : Z)
    (acc : list string * list (string * Z)) (item : string * Z)
    : list string * list (string * Z) :=
  let '(to_process, pending) := acc in
  let '(file_path, change_time) := item in
  if (current_time - change_time >=? debounce)%Z
  then ((to_process ++ [file_path])%list, dict_del pending file_path)
  else acc.

(** The second loop: the ready paths are synced one after the other. *)
Fixpoint sync_all (w : world) (self : t) (to_process : list string)
    : t * list action :=
  match to_process with
  | [] => (self, [])
  | file_path :: rest =>
      let '(self1, done1) := _sync_file_to_ragflow w self file_path in
      let '(self2, done2) := sync_all w self1 rest in
      (self2, (done1 ++ done2)%list)
  end.

Definition process_pending_changes (w : world) (self : t)
    : t * list action :=
  let current_time := time w in
  let '(to_process, pending) :=
    fold_left (drain_step current_time self.(debounce_seconds))
      self.(pending_changes) ([], self.(pending_changes)) in
  sync_all w (set_pending_changes self pending) to_process.

Definition on_created (w : world) (self : t) (event : FileSystemEvent) : t :=
  if negb (is_directory event)
  then _handle_file_change w self (src_path event) else self.

Definition on_modified (w : world) (self : t) (event : FileSystemEvent) : t :=
  if negb (is_directory event)
  then _handle_file_change w self (src_path event) else self.

Definition on_deleted (w : world) (self : t) (event : FileSystemEvent) : t :=
  if negb (is_directory event)
  then _handle_file_change w self (src_path event) else self.

Definition on_moved (w : world) (self : t) (event : FileSystemEvent) : t :=
  if negb (is_directory event)
  then _handle_file_change w
         (_handle_file_change w self (src_path event)) (dest_path event)
  else self.

(** [FileSystemEventHandler.dispatch] *)
Definition dispatch (w : world) (self : t) (event : FileSystemEvent) : t :=
  match kind event with
  | created => on_created w self event
  | modified => on_modified w self event
  | deleted => on_deleted w self event
  | moved => on_moved w self event
  end.

(** What happens to a running watcher: the observer delivers an event, or
    the loop of [main] wakes up and calls [process_pending_changes].  Each
    carries the state of the outside world at that moment. *)
Inductive occurrence : Type :=
| Notified (w : world) (event : FileSystemEvent)
| Drained (w : world).

Definition occurrence_time (o : occurrence) : Z :=
  match o with
  | Notified w _ | Drained w => time w
  end.

(** The watcher after a sequence of occurrences, with every action it took
    and the time of the drain cycle that took it. *)
Fixpoint run (self : t) (os : list occurrence) : t * list (Z * action) :=
  match os with
  | [] => (self, [])
  | Notified w event :: os' => run (dispatch w self event) os'
  | Drained w :: os' =>
      let '(self1, done1) := process_pending_changes w self in
      let '(self2, done2) := run self1 os' in
      (self2, (map (pair (time w)) done1 ++ done2)%list)
  end.

End handler.
End FileChangeHandler.

(** ** Observations on what the programs did *)

(** The uploads among the actions of the watcher. *)
Definition posts (done : list action) : list request :=
  flat_map (fun a => match a with Post r => [r] | Log _ => [] end) done.

(** Does this action start a sync attempt of [path]?  Every call of
    [_sync_file_to_ragflow] starts by logging [SyncingFile]. *)
Definition is_release (path : string) (a : action) : bool :=
  match a with
  | Log (SyncingFile q) => String.eqb q path
  | _ => false
  end.

(** The times at which [path] was released by the debouncer. *)
Definition releases (path : string) (done : list (Z * action)) : list Z :=
  map fst (List.filter (fun ta => is_release path (snd ta)) done).

(** The entries a pending-changes table holds for [path]. *)
Definition entries (d : list (string * Z)) (path : string)
    : list (string * Z) :=
  List.filter (fun kv => String.eqb (fst kv) path) d.

(** Consecutive times are less than [D] apart. *)
Fixpoint close_together (D : Z) (ts : list Z) : Prop :=
  match ts with
  | t1 :: ((t2 :: _) as rest) => (t2 - t1 < D)%Z ∧ close_together D rest
  | _ => True
  end.

(** Times never go back. *)
Fixpoint ascending (ts : list Z) : Prop :=
  match ts with
  | t1 :: ((t2 :: _) as rest) => (t1 <= t2)%Z ∧ ascending rest
  | _ => True
  end.

Section observations.
Context `{!PyLib}.

(** The paths an event is about: [on_moved] handles source and
    destination, the other callbacks the source only. *)
Definition event_paths (e : FileSystemEvent) : list string :=
  match kind e with
  | moved => [src_path e; dest_path e]
  | _ => [src_path e]
  end.

(** The occurrence is a notification that makes [path] pending: an event
    about [path], not a directory event, while [path] is an existing
    regular file that the patterns include. *)
Definition notifies (self : FileChangeHandler.t) (path : string)
    (o : FileChangeHandler.occurrence) : bool :=
  match o with
  | FileChangeHandler.Notified w e =>
      negb (is_directory e)
      && existsb (String.eqb path) (event_paths e)
      && FileChangeHandler.exists_ w path
      && FileChangeHandler.isfile w path
      && FileChangeHandler._should_include_file self path
  | FileChangeHandler.Drained _ => false
  end.

Definition notification_times (self : FileChangeHandler.t) (path : string)
    (os : list FileChangeHandler.occurrence) : list Z :=
  map FileChangeHandler.occurrence_time (List.filter (notifies self path) os).

(** The times of all the notifications about [path] that are not directory
    events, whatever the state of the path when they arrive. *)
Definition raw_notification_times (path : string)
    (os : list FileChangeHandler.occurrence) : list Z :=
  map FileChangeHandler.occurrence_time
    (List.filter
       (fun o => match o with
                 | FileChangeHandler.Notified _ e =>
                     negb (is_directory e)
                     && existsb (String.eqb path) (event_paths e)
                 | FileChangeHandler.Drained _ => false
                 end)
       os).

(** The documents of the files whose construction succeeds, in order. *)
Definition constructed (self : LocalFolderConnector.t) (w : world)
    (files : list string) : list Document :=
  flat_map
    (fun file_path =>
       match LocalFolderConnector._create_document self w file_path with
       | Ok doc => [doc]
       | Raise _ => []
       end)
    files.

(** Two bulk runs in succession over one state of the file system. *)
Definition load_twice (self : LocalFolderConnector.t) (w : world)
    : result (list (list Document)) * result (list (list Document)) :=
  let first := LocalFolderConnector.load_from_state self w in
  let second := LocalFolderConnector.load_from_state self w in
  (first, second).

End observations.

(** Batches formed from [docs] with bound [K], in the words of the
    specification: ceil(M/K) batches, all but the last of size K, the last
    of size M mod K (K when that is 0), order kept. *)
Definition batch_complete {A} (K : Z) (docs : list A) (bs : list (list A))
    : Prop :=
  let M := Z.of_nat (length docs) in
  (Z.of_nat (length bs) = (M + K - 1) / K)%Z
  ∧ (∀ i b, bs !! i = Some b → S i < length bs →
            Z.of_nat (length b) = K)
  ∧ (∀ b, last bs = Some b →
          Z.of_nat (length b) = if (M mod K =? 0)%Z then K else (M mod K)%Z)
  ∧ concat bs = docs.

(** The same file with another modification time. *)
Definition touch (w : world) (path : string) (mtime : Z) : world :=
  {| time := time w;
     getcwd := getcwd w;
     scandir := scandir w;
     stat := fun q =>
       if String.eqb q path
       then (fun st => {| st_kind := st_kind st; st_size := st_size st;
                          st_mtime := mtime; st_ctime := st_ctime st;
                          st_uid := st_uid st |}) <$> stat w q
       else stat w q;
     content := content w;
     rglob := rglob w;
     post := post w |}.

(** The configured folder lies under the allowed base: the components of
    its absolute path extend those of the base. *)
Definition components (path : string) : list string :=
  List.filter (fun c => negb (String.eqb c "")) (os_path.split path).

Fixpoint list_prefix (l1 l2 : list string) : bool :=
  match l1, l2 with
  | [], _ => true
  | x :: l1', y :: l2' => String.eqb x y && list_prefix l1' l2'
  | _ :: _, [] => false
  end.

Definition resolves_under (cwd folder_path allowed_base_path : string)
    : bool :=
  list_prefix (components (os_path.abspath cwd allowed_base_path))
              (components (os_path.abspath cwd folder_path)).

(** ** A concrete library and the scenarios of the specification *)

(** [fnmatch] for patterns made of [*], [?] and literal characters. *)
Fixpoint glob (pat s : list ascii) : bool :=
  match pat with
  | [] => is_empty s
  | c :: pat' =>
      if Ascii.eqb c "*" then
        (fix star (s : list ascii) : bool :=
           glob pat' s
           || match s with
              | [] => false
              | _ :: s' => star s'
              end) s
      else
        match s with
        | [] => false
        | d :: s' => (Ascii.eqb c "?" || Ascii.eqb c d) && glob pat' s'
        end
  end.

Definition strip_prefix_len (n : nat) (s : string) : string :=
  String.substring n (String.length s - n) s.

#[local] Instance scenario_lib : PyLib := {|
  fnmatch name pat :=
    glob (list_ascii_of_string pat) (list_ascii_of_string name);
  get_file_ext path :=
    List.last (os_path.split_on "." (os_path.basename path)) ""%string;
  guess_type _ := None;
  md5_hexdigest s := s;
  relpath path start := strip_prefix_len (S (String.length start)) path;
  json_dumps _ := "{}"%string;
  isoformat _ := ""%string;
  LOCAL_FOLDER := "local_folder"%string;
|}.

Module Scenario.
Local Open Scope string_scope.

Definition root : string := "/ragflow/mounted_data".
Definition a_txt : string := "/ragflow/mounted_data/a.txt".
Definition b_log : string := "/ragflow/mounted_data/b.log".

Definition regular (size mtime : Z) : stat_result :=
  {| st_kind := RegularFile; st_size := size; st_mtime := mtime;
     st_ctime := mtime; st_uid := 1000 |}.

(** The root holds [a.txt] ("hello") and [b.log] ("world"); the server
    answers every upload with [answer]. *)
Definition tree (now : Z) (answer : option response) : world :=
  {| time := now;
     getcwd := "/";
     scandir := fun p =>
       if String.eqb p root
       then Some [EntFile "a.txt"; EntFile "b.log"] else None;
     stat := fun p =>
       if String.eqb p a_txt then Some (regular 5 100)
       else if String.eqb p b_log then Some (regular 5 100)
       else if String.eqb p root
       then Some {| st_kind := Directory; st_size := 4096; st_mtime := 100;
                    st_ctime := 100; st_uid := 1000 |}
       else None;
     content := fun p =>
       if String.eqb p a_txt then Some (list_byte_of_string "hello")
       else if String.eqb p b_log then Some (list_byte_of_string "world")
       else None;
     rglob := fun p => if String.eqb p root then [a_txt; b_log] else [];
     post := fun _ => answer |}.

Definition world0 : world := tree 0 None.

(** The tree after [a.txt] has been removed. *)
Definition without_a (now : Z) : world :=
  {| time := now;
     getcwd := "/";
     scandir := fun p =>
       if String.eqb p root then Some [EntFile "b.log"] else None;
     stat := fun p => if String.eqb p a_txt then None else stat world0 p;
     content := fun p =>
       if String.eqb p a_txt then None else content world0 p;
     rglob := fun p => if String.eqb p root then [b_log] else [];
     post := fun _ => None |}.

(** A world whose root directory cannot be read. *)
Definition unreadable_root : world :=
  {| time := 0; getcwd := "/"; scandir := fun _ => None;
     stat := fun _ => None; content := fun _ => None;
     rglob := fun _ => []; post := fun _ => None |}.

Definition connector (recursive : bool) (batch_size : Z)
    : LocalFolderConnector.t :=
  {| LocalFolderConnector.folder_path := root;
     LocalFolderConnector.recursive := recursive;
     LocalFolderConnector.file_patterns := ["*.txt"];
     LocalFolderConnector.compute_hash := true;
     LocalFolderConnector.batch_size := batch_size;
     LocalFolderConnector.allowed_base_path := root |}.

Definition sha256_hello : string :=
  "2cf24dba5fb0a30e26e83b2ac5b9e29e1b161e5c1fa7425e73043362938b9824".

(** A watcher that has [a.txt] pending since time [since] and knows the
    fingerprints in [hashes]. *)
Definition watcher (hashes : gmap string string) (since : Z)
    : FileChangeHandler.t :=
  {| FileChangeHandler.ragflow_url := "http://localhost:9380";
     FileChangeHandler.api_key := "key";
     FileChangeHandler.connector_id := "kb";
     FileChangeHandler.folder_path := root;
     FileChangeHandler.file_patterns := [];
     FileChangeHandler.debounce_seconds := 2;
     FileChangeHandler.file_hashes := hashes;
     FileChangeHandler.pending_changes := [(a_txt, since)] |}.

Definition event (k : event_type) (path : string) : FileSystemEvent :=
  {| kind := k; is_directory := false; src_path := path; dest_path := "" |}.

End Scenario.

(** ** Auxiliary notions for the proofs *)

(** A list of batches in which every batch but the last holds exactly [K]
    elements and the last holds between 1 and [K]. *)
Inductive batched {A} (K : Z) : list (list A) → Prop :=
| batched_nil : batched K []
| batched_last (b : list A) :
    b ≠ [] → (Z.of_nat (length b) <= K)%Z → batched K [b]
| batched_full (b : list A) (bs : list (list A)) :
    Z.of_nat (length b) = K → bs ≠ [] → batched K bs → batched K (b :: bs).

(** The pending entries whose quiet period has elapsed at time [now]. *)
Definition ready (now D : Z) (kv : string * Z) : bool :=
  (now - snd kv >=? D)%Z.

Definition ready_paths (now D : Z) (items : list (string * Z))
    : list string :=
  map fst (List.filter (ready now D) items).

Section outcomes.
Context `{!PyLib}.
Import FileChangeHandler.

(** The outcomes of [_sync_file_to_ragflow], read off its branches: the
    handler afterwards and the actions taken. *)
Inductive sync_outcome (w : world) (self : t) (path : string)
    : t * list action → Prop :=
| sync_error_before_upload :
    sync_outcome w self path
      (self, [Log (SyncingFile path); Log (ErrorSyncing path)])
| sync_unchanged (h : string) :
    _compute_file_hash w path = Ok h →
    file_hashes self !! path = Some h →
    sync_outcome w self path
      (self, [Log (SyncingFile path); Log (FileUnchanged path)])
| sync_upload_raised (h : string) (bs : bytes) (meta : pydict) :
    _compute_file_hash w path = Ok h →
    file_hashes self !! path ≠ Some h →
    _get_file_metadata self w path = Ok meta →
    content w path = Some bs →
    post w (upload_request self path bs meta) = None →
    sync_outcome w self path
      (self, [Log (SyncingFile path);
              Post (upload_request self path bs meta);
              Log (ErrorSyncing path)])
| sync_upload_rejected (h : string) (bs : bytes) (meta : pydict)
    (resp : response) :
    _compute_file_hash w path = Ok h →
    file_hashes self !! path ≠ Some h →
    _get_file_metadata self w path = Ok meta →
    content w path = Some bs →
    post w (upload_request self path bs meta) = Some resp →
    status_code resp ≠ 200%Z →
    sync_outcome w self path
      (self, [Log (SyncingFile path);
              Post (upload_request self path bs meta);
              Log (FailedToSync path (status_code resp))])
| sync_uploaded (h : string) (bs : bytes) (meta : pydict)
    (resp : response) :
    _compute_file_hash w path = Ok h →
    file_hashes self !! path ≠ Some h →
    _get_file_metadata self w path = Ok meta →
    content w path = Some bs →
    post w (upload_request self path bs meta) = Some resp →
    status_code resp = 200%Z →
    sync_outcome w self path
      (set_file_hashes self (<[path := h]> (file_hashes self)),
       [Log (SyncingFile path);
        Post (upload_request self path bs meta);
        Log (SuccessfullySynced path)]).

End outcomes.

Module Scenario2.
Import Scenario.
Local Open Scope string_scope.

(** A watcher with nothing pending. *)
Definition idle_watcher (hashes : gmap string string)
    : FileChangeHandler.t :=
  {| FileChangeHandler.ragflow_url := "http://localhost:9380";
     FileChangeHandler.api_key := "key";
     FileChangeHandler.connector_id := "kb";
     FileChangeHandler.folder_path := root;
     FileChangeHandler.file_patterns := [];
     FileChangeHandler.debounce_seconds := 2;
     FileChangeHandler.file_hashes := hashes;
     FileChangeHandler.pending_changes := [] |}.

Definition ok : option response :=
  Some {| status_code := 200; text := "" |}.

Definition server_error : option response :=
  Some {| status_code := 500; text := "" |}.

(** Two changes of [a.txt] one second apart, then a drain every second. *)
Definition burst : list FileChangeHandler.occurrence :=
  [ FileChangeHandler.Notified (tree 0 ok) (event created a_txt);
    FileChangeHandler.Notified (tree 1 ok) (event modified a_txt);
    FileChangeHandler.Drained (tree 2 ok);
    FileChangeHandler.Drained (tree 3 ok);
    FileChangeHandler.Drained (tree 4 ok) ].

End Scenario2.

(** ** The rest of the two programs *)

(** [os.path.exists] and [os.path.isdir]: a failing [stat] means no. *)
Definition path_exists (w : world) (path : string) : bool :=
  bool_decide (is_Some (stat w path)).

Definition path_isdir (w : world) (path : string) : bool :=
  match stat w path with
  | Some st => match st_kind st with Directory => true | _ => false end
  | None => false
  end.

(** [LocalFolderConnector.load_credentials]: the credentials are not
    looked at; [Ok tt] stands for the [None] it returns. *)
Definition load_credentials (self : LocalFolderConnector.t) (w : world)
    (credentials : pydict) : result unit :=
  if negb (path_exists w (LocalFolderConnector.folder_path self))
  then Raise (ConnectorMissingCredentialError "Folder path does not exist")
  else if negb (path_isdir w (LocalFolderConnector.folder_path self))
  then Raise (ConnectorValidationError "Path is not a directory")
  else Ok tt.

(** The files [os.walk] reports below a directory: the entries that are
    not directories, at any depth, under directories that can be read. *)
Inductive tree_file : string → list dirent → string → Prop :=
| tree_file_here (top : string) (es : list dirent) (e : dirent) :
    In e es → walk_is_dir e = false →
    tree_file top es (os_path.join top (ent_name e))
| tree_file_below (top : string) (es : list dirent) (d : string)
    (sub : list dirent) (path : string) :
    In (EntDir d true sub) es →
    tree_file (os_path.join top d) sub path →
    tree_file top es path.

(** The paths [os.walk] gives: each file name joined to its directory. *)
Definition walk_paths (items : list walk_item) : list string :=
  flat_map (λ '(root, _, filenames), map (os_path.join root) filenames)
    items.

Definition is_regular (e : dirent) : bool :=
  match e with
  | EntFile _ => true
  | _ => false
  end.

Definition is_broken (e : dirent) : bool :=
  match e with
  | EntBroken _ => true
  | _ => false
  end.

(** The entry point of the watcher, [main], up to the start of its loop. *)
Module watcher_main.
Section main.
Context `{!PyLib}.




End main.
End watcher_main.

(** The fingerprint [_scan_initial_files] records for a path, if any: the
    path must be a regular file that the patterns include and that can be
    read. *)
Definition trackable `{!PyLib} (w : world) (self : FileChangeHandler.t)
    (path : string) : option string :=
  if FileChangeHandler.isfile w path
     && FileChangeHandler._should_include_file self path
  then match FileChangeHandler._compute_file_hash w path with
       | Ok h => Some h
       | Raise _ => None
       end
  else None.

(** The paths whose sync attempts the actions record, in order. *)
Definition released_paths (done : list action) : list string :=
  flat_map (λ a, match a with
                 | Log (SyncingFile path) => [path]
                 | _ => []
                 end) done.

Module Scenario3.
Import Scenario.
Local Open Scope string_scope.

Definition sub_c_txt : string := "/ragflow/mounted_data/sub/c.txt".
Definition sock : string := "/ragflow/mounted_data/sock".

(** The root holds [a.txt], a socket, a readable directory [sub] with
    [c.txt] (content "hello", as [a.txt]) and a directory that cannot be
    read. *)
Definition nested : world :=
  {| time := 0;
     getcwd := "/";
     scandir := fun p =>
       if String.eqb p root
       then Some [ EntFile "a.txt"; EntOther "sock";
                   EntDir "sub" true [EntFile "c.txt"];
                   EntDir "locked" false [] ]
       else None;
     stat := fun p =>
       if String.eqb p a_txt || String.eqb p sub_c_txt
       then Some (regular 5 100)
       else if String.eqb p root
       then Some {| st_kind := Directory; st_size := 4096; st_mtime := 100;
                    st_ctime := 100; st_uid := 1000 |}
       else None;
     content := fun p =>
       if String.eqb p a_txt || String.eqb p sub_c_txt
       then Some (list_byte_of_string "hello") else None;
     rglob := fun p => if String.eqb p root then [a_txt; sub_c_txt] else [];
     post := fun _ => Scenario2.ok |}.

(** The root holds a socket only. *)
Definition only_socket : world :=
  {| time := 0; getcwd := "/";
     scandir := fun p =>
       if String.eqb p root then Some [EntOther "sock"] else None;
     stat := fun _ => None; content := fun _ => None;
     rglob := fun _ => []; post := fun _ => None |}.

(** A connector without patterns. *)
Definition plain (recursive : bool) (batch_size : Z)
    : LocalFolderConnector.t :=
  {| LocalFolderConnector.folder_path := root;
     LocalFolderConnector.recursive := recursive;
     LocalFolderConnector.file_patterns := [];
     LocalFolderConnector.compute_hash := true;
     LocalFolderConnector.batch_size := batch_size;
     LocalFolderConnector.allowed_base_path := root |}.


Definition moved_a_to_b : FileSystemEvent :=
  {| kind := moved; is_directory := false;
     src_path := a_txt; dest_path := b_log |}.

End Scenario3.

Module Scenario4.
Import Scenario.
Local Open Scope string_scope.

(** [a.txt] is created, deleted one second later, and the drain cycle
    runs one second after that. *)
Definition created_then_deleted : list FileChangeHandler.occurrence :=
  [ FileChangeHandler.Notified (tree 0 Scenario2.ok) (event created a_txt);
    FileChangeHandler.Notified (without_a 1) (event deleted a_txt);
    FileChangeHandler.Drained (without_a 2) ].

(** The directory still lists [a.txt], but the file is gone by the time it
    is read. *)
Definition vanished_a : world :=
  {| time := 0;
     getcwd := "/";
     scandir := scandir world0;
     stat := stat (without_a 0);
     content := content (without_a 0);
     rglob := rglob world0;
     post := fun _ => None |}.

End Scenario4.

(** * Properties *)

(** ** Streaming and one-shot SHA-256 agree *)

Section hashing.
Import hashlib.
#[local] Opaque SHA256.compress.

Lemma update_app (s : hasher) (a b : bytes) :
  update (update s a) b = update s (a ++ b).
Proof. unfold update. by rewrite fold_left_app. Qed.

Lemma update_cons (s : hasher) (b : byte) (l : bytes) :
  update s (b :: l) = update (update_byte s b) l.
Proof. reflexivity. Qed.

Lemma update_short (l : bytes) : ∀ s : hasher,
  length (buffer s) + length l < 64 →
  update s l =
    {| state := state s; buffer := buffer s ++ l;
       count := count s + length l |}.
Proof.
  induction l as [|b l IH]; intros s Hlen.
  - destruct s as [st buf n]; cbn [state buffer count length update fold_left].
    by rewrite app_nil_r, Nat.add_0_r.
  - rewrite update_cons. cbn [length] in Hlen.
    assert (Hb : Nat.eqb (length (buffer s ++ [b])) 64 = false).
    { apply Nat.eqb_neq. rewrite length_app. cbn [length]. lia. }
    rewrite IH; unfold update_byte; rewrite Hb; cbn [state buffer count].
    + rewrite <- app_assoc. cbn [app length]. f_equal. lia.
    + rewrite length_app. cbn [length]. lia.
Qed.

Lemma update_block (s : hasher) (l : bytes) :
  buffer s = [] → length l = 64 →
  update s l =
    {| state := SHA256.compress (state s) l; buffer := [];
       count := count s + 64 |}.
Proof.
  intros Hbuf Hlen.
  destruct (exists_last (l := l)) as (l' & b & ->).
  { intros ->. discriminate. }
  rewrite length_app in Hlen. cbn [length] in Hlen.
  rewrite <- update_app, (update_short l' s) by (rewrite Hbuf; cbn [length]; lia).
  rewrite update_cons. unfold update_byte.
  cbn [state buffer count update fold_left]. rewrite Hbuf. cbn [app].
  assert (Hb : Nat.eqb (length (l' ++ [b])) 64 = true).
  { apply Nat.eqb_eq. rewrite length_app. cbn [length]. lia. }
  rewrite Hb. f_equal. lia.
Qed.

Lemma fold_left_step {A B} (f : A → B → A) (x : B) (r : list B) (a : A) :
  fold_left f (x :: r) a = fold_left f r (f a x).
Proof. reflexivity. Qed.

Lemma update_blocks (k : nat) : ∀ (l : bytes) (s : hasher),
  buffer s = [] → length l = 64 * k →
  state (update s l) = fold_left SHA256.compress (SHA256.blocks l) (state s)
  ∧ buffer (update s l) = [].
Proof.
  induction k as [|k IH]; intros l s Hbuf Hlen.
  - destruct l; [|discriminate]. simp blocks. split; [reflexivity|exact Hbuf].
  - destruct l as [|b l]; [discriminate|].
    simp blocks. rewrite fold_left_step.
    assert (Hup : update s (b :: l)
                  = update (update s (firstn 64 (b :: l)))
                           (skipn 64 (b :: l))).
    { by rewrite update_app, firstn_skipn. }
    assert (H64 : length (firstn 64 (b :: l)) = 64).
    { rewrite length_firstn. lia. }
    rewrite Hup.
    pose proof (update_block s _ Hbuf H64) as Hblk.
    remember (update s (firstn 64 (b :: l))) as s' eqn:Es'. clear Es'.
    assert (Hst : state s' = SHA256.compress (state s) (firstn 64 (b :: l)))
      by (rewrite Hblk; reflexivity).
    assert (Hb' : buffer s' = []) by (rewrite Hblk; reflexivity).
    rewrite <- Hst.
    apply IH; [exact Hb'|]. rewrite length_skipn. lia.
Qed.

Lemma update_count (l : bytes) : ∀ s : hasher,
  count (update s l) = count s + length l.
Proof.
  induction l as [|b l IH]; intros s.
  - cbn [update fold_left length]. lia.
  - rewrite update_cons, IH.
    unfold update_byte. destruct (Nat.eqb _ _); cbn [count length]; lia.
Qed.

Lemma padded_length (n : nat) :
  ∃ k, n + length (SHA256.padding n) = 64 * k.
Proof.
  unfold SHA256.padding. cbn [length]. rewrite length_app, repeat_length.
  cbn [length SHA256.bytes_of_word app].
  exists (Z.to_nat ((Z.of_nat n + 9 + (55 - Z.of_nat n) mod 64) / 64)).
  pose proof (Z.mod_pos_bound (55 - Z.of_nat n) 64 eq_refl).
  assert (((Z.of_nat n + 9 + (55 - Z.of_nat n) mod 64) mod 64 = 0)%Z).
  { rewrite Z.add_mod_idemp_r by lia.
    replace (Z.of_nat n + 9 + (55 - Z.of_nat n))%Z with (1 * 64)%Z by lia.
    apply Z.mod_mul. lia. }
  pose proof (Z.div_mod (Z.of_nat n + 9 + (55 - Z.of_nat n) mod 64) 64).
  lia.
Qed.

(** Feeding a message to a fresh object, in any number of pieces, and
    asking for the digest gives the SHA-256 of the message. *)
Lemma digest_update (msg : bytes) :
  digest (update sha256 msg) = SHA256.sha256 msg.
Proof.
  unfold digest, SHA256.sha256.
  rewrite update_count, update_app. cbn [count sha256 Nat.add].
  destruct (padded_length (length msg)) as [k Hk].
  destruct (update_blocks k (msg ++ SHA256.padding (length msg)) sha256)
    as [Hst _]; [reflexivity| by rewrite length_app |].
  rewrite Hst. reflexivity.
Qed.

End hashing.

(** ** Reading a file in blocks *)

Lemma read_blocks_all (f : file_handle) (n : nat) :
  fst (read f n) ++ read_all (snd (read f n)) = read_all f.
Proof.
  unfold read, read_all. cbn [fst snd data pos].
  rewrite length_firstn.
  destruct (Nat.le_gt_cases n (length (skipn (pos f) (data f)))) as [Hle|Hgt].
  - rewrite Nat.min_l by exact Hle.
    rewrite Nat.add_comm, <- skipn_skipn. apply firstn_skipn.
  - rewrite Nat.min_r by lia.
    rewrite firstn_all2 by lia.
    rewrite (skipn_all2 (n := pos f + _)).
    + by rewrite app_nil_r.
    + rewrite length_skipn in *. lia.
Qed.

Lemma read_empty (f : file_handle) (n : nat) :
  fst (read f (S n)) = [] → read_all f = [].
Proof.
  unfold read, read_all. cbn [fst data pos].
  destruct (skipn (pos f) (data f)); [reflexivity|discriminate].
Qed.

(** The loop over 4096-byte blocks absorbs exactly the bytes of the file
    from the current position on, and it always ends. *)
Lemma hash_blocks_update (f : file_handle) (h : hashlib.hasher) :
  hash_blocks f h = hashlib.update h (read_all f).
Proof.
  funelim (hash_blocks f h).
  - rewrite (read_empty f 4095); [reflexivity|exact e'].
  - rewrite H, update_app. f_equal. rewrite <- e'.
    pose proof (read_blocks_all f 4096) as Hr.
    unfold read in Hr. cbn [fst snd] in Hr. exact Hr.
Qed.

Lemma hash_blocks_fresh (bs : bytes) :
  hashlib.hexdigest (hash_blocks {| data := bs; pos := 0 |} hashlib.sha256)
  = SHA256.sha256_hex bs.
Proof.
  rewrite hash_blocks_update. unfold hashlib.hexdigest, SHA256.sha256_hex.
  unfold read_all. cbn [pos data skipn]. by rewrite digest_update.
Qed.

(** ** Fingerprints *)

Lemma connector_hash_content (w : world) (path : string) (bs : bytes) :
  content w path = Some bs →
  LocalFolderConnector._compute_file_hash w path
  = Ok (SHA256.sha256_hex bs).
Proof.
  intros Hc. unfold LocalFolderConnector._compute_file_hash, open_rb.
  rewrite Hc. cbn [mbind result_bind mret result_ret].
  by rewrite hash_blocks_fresh.
Qed.

Lemma watcher_hash_content (w : world) (path : string) (bs : bytes) :
  content w path = Some bs →
  FileChangeHandler._compute_file_hash w path = Ok (SHA256.sha256_hex bs).
Proof.
  intros Hc. unfold FileChangeHandler._compute_file_hash, open_rb.
  rewrite Hc. cbn [mbind result_bind mret result_ret].
  by rewrite hash_blocks_fresh.
Qed.

Lemma watcher_hash_missing (w : world) (path : string) :
  content w path = None →
  FileChangeHandler._compute_file_hash w path = Raise OSError.
Proof.
  intros Hc. unfold FileChangeHandler._compute_file_hash, open_rb.
  by rewrite Hc.
Qed.

(** C1.  The fingerprint of a file is the SHA-256 digest, in hexadecimal,
    of its whole content, whatever the number of 4096-byte blocks it is read
    in: for the connector and for the watcher alike, so equal contents give
    equal fingerprints at any two paths; and in the scenario of the
    specification the bulk scan yields one document, for [a.txt], whose
    checksum is SHA-256("hello"). *)
Theorem fingerprint_is_sha256_of_content :
  (∀ (w : world) (path : string) (bs : bytes),
      content w path = Some bs →
      LocalFolderConnector._compute_file_hash w path
        = Ok (SHA256.sha256_hex bs)
      ∧ FileChangeHandler._compute_file_hash w path
        = Ok (SHA256.sha256_hex bs))
  ∧ (∀ (w1 w2 : world) (p1 p2 : string) (bs : bytes),
      content w1 p1 = Some bs → content w2 p2 = Some bs →
      LocalFolderConnector._compute_file_hash w1 p1
        = LocalFolderConnector._compute_file_hash w2 p2
      ∧ FileChangeHandler._compute_file_hash w1 p1
        = FileChangeHandler._compute_file_hash w2 p2
      ∧ LocalFolderConnector._compute_file_hash w1 p1
        = FileChangeHandler._compute_file_hash w2 p2)
  ∧ (∃ doc : Document,
      LocalFolderConnector.load_from_state
        (Scenario.connector true 10) Scenario.world0 = Ok [[doc]]
      ∧ semantic_identifier doc = "a.txt"%string
      ∧ dict_get (metadata doc) "checksum"
        = Some (VStr (SHA256.sha256_hex (list_byte_of_string "hello")))
      ∧ SHA256.sha256_hex (list_byte_of_string "hello")
        = Scenario.sha256_hello).
Proof.
  split; [|split].
  - intros w path bs Hc. split.
    + by apply connector_hash_content.
    + by apply watcher_hash_content.
  - intros w1 w2 p1 p2 bs H1 H2.
    rewrite (connector_hash_content w1 p1 bs H1),
            (connector_hash_content w2 p2 bs H2),
            (watcher_hash_content w1 p1 bs H1),
            (watcher_hash_content w2 p2 bs H2).
    repeat split.
  - eexists. split; [vm_compute; reflexivity|].
    split; [reflexivity|]. split; vm_compute; reflexivity.
Qed.

Lemma fingerprint_is_sha256_of_content_witness :
  content Scenario.world0 Scenario.a_txt
    = Some (list_byte_of_string "hello")
  ∧ LocalFolderConnector._compute_file_hash Scenario.world0 Scenario.a_txt
    = Ok (SHA256.sha256_hex (list_byte_of_string "hello")).
Proof.
  split; [reflexivity|].
  apply (proj1 fingerprint_is_sha256_of_content
           Scenario.world0 Scenario.a_txt (list_byte_of_string "hello")).
  reflexivity.
Defined.

(** ** Batching *)

Section batching.
Context `{!PyLib}.
Import LocalFolderConnector.

Lemma constructed_cons (self : t) (w : world) (p : string)
    (files : list string) :
  constructed self w (p :: files)
  = match _create_document self w p with
    | Ok doc => doc :: constructed self w files
    | Raise _ => constructed self w files
    end.
Proof.
  unfold constructed. cbn [flat_map].
  by destruct (_create_document self w p).
Qed.

Lemma yield_batches_concat (self : t) (w : world) (files : list string) :
  ∀ batch : list Document,
    concat (yield_batches self w files batch)
    = batch ++ constructed self w files.
Proof.
  induction files as [|p files IH]; intros batch.
  - cbn [yield_batches]. destruct batch; cbn; by rewrite ?app_nil_r.
  - cbn [yield_batches]. rewrite constructed_cons.
    destruct (_create_document self w p) as [doc|e]; [|apply IH].
    destruct (Z.of_nat (length (batch ++ [doc])) >=? batch_size self)%Z.
    + cbn [concat]. rewrite IH. cbn [app]. by rewrite <- app_assoc.
    + rewrite IH. by rewrite <- app_assoc.
Qed.

Lemma yield_batches_nonempty (self : t) (w : world) (files : list string) :
  ∀ batch : list Document,
    Forall (λ b, b ≠ []) (yield_batches self w files batch).
Proof.
  induction files as [|p files IH]; intros batch.
  - cbn [yield_batches]. destruct batch; cbn [is_empty]; repeat constructor.
    discriminate.
  - cbn [yield_batches].
    destruct (_create_document self w p) as [doc|e]; [|apply IH].
    destruct (Z.of_nat (length (batch ++ [doc])) >=? batch_size self)%Z;
      [|apply IH].
    constructor; [|apply IH]. by destruct batch.
Qed.

Lemma yield_batches_batched (self : t) (w : world) (files : list string) :
  ∀ batch : list Document,
    (Z.of_nat (length batch) < batch_size self)%Z →
    batched (batch_size self) (yield_batches self w files batch).
Proof.
  induction files as [|p files IH]; intros batch Hlt.
  - cbn [yield_batches]. destruct batch as [|d batch]; cbn [is_empty].
    + constructor.
    + apply batched_last; [discriminate|lia].
  - cbn [yield_batches].
    destruct (_create_document self w p) as [doc|e]; [|by apply IH].
    assert (Hlen : Z.of_nat (length (batch ++ [doc]))
                   = (Z.of_nat (length batch) + 1)%Z).
    { rewrite length_app. cbn [length]. lia. }
    destruct (Z.geb_spec (Z.of_nat (length (batch ++ [doc])))
                (batch_size self)) as [Hge|Hlt'].
    + assert (Hnil : (0 < batch_size self)%Z) by lia.
      specialize (IH [] ltac:(cbn [length]; lia)).
      destruct (yield_batches self w files []) as [|b' bs'] eqn:E.
      * apply batched_last; [by destruct batch|lia].
      * apply batched_full; [lia|discriminate|exact IH].
    + apply IH. lia.
Qed.

Lemma batched_bound {A} (K : Z) (bs : list (list A)) :
  batched K bs → Forall (λ b, (Z.of_nat (length b) <= K)%Z) bs.
Proof.
  induction 1 as [|b Hne Hle|b bs Hlen Hne Hbs IH].
  - constructor.
  - constructor; [exact Hle|constructor].
  - constructor; [cbn beta; lia|exact IH].
Qed.

(** The arithmetic of a batched list: with [n] batches, the last of size
    [r], the total is [K * (n - 1) + r] and [1 <= r <= K]. *)
Lemma batched_total {A} (K : Z) (bs : list (list A)) :
  batched K bs → bs ≠ [] →
  ∃ b, last bs = Some b
       ∧ (1 <= Z.of_nat (length b) <= K)%Z
       ∧ Z.of_nat (length (concat bs))
         = (K * (Z.of_nat (length bs) - 1) + Z.of_nat (length b))%Z.
Proof.
  induction 1 as [|b Hne Hle|b bs Hlen Hne Hbs IH]; intros Hnn; [done| |].
  - exists b. split; [reflexivity|]. split.
    + destruct b; [done|]. cbn [length] in *. lia.
    + cbn [concat length]. rewrite app_nil_r. lia.
  - destruct (IH Hne) as (b' & Hlast & Hr & Htot).
    exists b'. split; [|split; [exact Hr|]].
    + destruct bs; [done|]. exact Hlast.
    + cbn [concat length]. rewrite length_app. lia.
Qed.

Lemma batched_all_but_last {A} (K : Z) (bs : list (list A)) :
  batched K bs →
  ∀ i b, bs !! i = Some b → S i < length bs → Z.of_nat (length b) = K.
Proof.
  induction 1 as [|b Hne Hle|b bs Hlen Hne Hbs IH]; intros i b0 Hi Hlt.
  - done.
  - cbn [length] in Hlt. lia.
  - destruct i as [|i]; cbn in Hi.
    + by inversion Hi; subst.
    + apply (IH i b0 Hi). cbn [length] in Hlt. lia.
Qed.

Lemma batched_complete {A} (K : Z) (docs : list A) (bs : list (list A)) :
  (0 < K)%Z → batched K bs → concat bs = docs → batch_complete K docs bs.
Proof.
  intros HK Hb Hc. unfold batch_complete. rewrite <- Hc.
  destruct bs as [|b0 bs0] eqn:Ebs.
  - cbn [concat length last]. repeat split; try done.
    symmetry. apply Z.div_small. lia.
  - rewrite <- Ebs in *.
    destruct (batched_total K bs Hb) as (b & Hlast & Hr & Htot);
      [by rewrite Ebs|].
    set (n := Z.of_nat (length bs)) in *.
    set (r := Z.of_nat (length b)) in *.
    assert (Hn : (1 <= n)%Z) by (subst n; rewrite Ebs; cbn [length]; lia).
    repeat split.
    + rewrite Htot.
      apply (Z.div_unique _ _ _ (r - 1)); lia.
    + by apply batched_all_but_last.
    + intros b' Hb'. rewrite Hlast in Hb'. inversion Hb'; subst b'.
      fold r. rewrite Htot.
      destruct (Z.eq_dec r K) as [->|Hne].
      * replace (K * (n - 1) + K)%Z with (n * K)%Z by lia.
        rewrite Z.mod_mul by lia. reflexivity.
      * assert (Hm : ((K * (n - 1) + r) mod K = r)%Z).
        { rewrite Z.add_comm, Z.mul_comm, Z.mod_add by lia.
          apply Z.mod_small. lia. }
        rewrite Hm. destruct (Z.eqb_spec r 0); [lia|reflexivity].
Qed.

End batching.

Section bulk.
Context `{!PyLib}.
Import LocalFolderConnector.

Lemma load_from_state_inv (self : t) (w : world)
    (bs : list (list Document)) :
  load_from_state self w = Ok bs ↔
  ∃ files, _list_files self w None None = Ok files
           ∧ bs = yield_batches self w files [].
Proof.
  unfold load_from_state.
  destruct (_list_files self w None None) as [files|e];
    cbn [mbind result_bind mret result_ret]; split.
  - intros [= <-]. by exists files.
  - intros (files' & [= <-] & ->). reflexivity.
  - discriminate.
  - intros (files' & Hf & _). discriminate.
Qed.

Lemma poll_source_inv (self : t) (w : world) (start end_ : Z)
    (bs : list (list Document)) :
  poll_source self w start end_ = Ok bs ↔
  ∃ files, _list_files self w (Some start) (Some end_) = Ok files
           ∧ bs = yield_batches self w files [].
Proof.
  unfold poll_source.
  destruct (_list_files self w (Some start) (Some end_)) as [files|e];
    cbn [mbind result_bind mret result_ret]; split.
  - intros [= <-]. by exists files.
  - intros (files' & [= <-] & ->). reflexivity.
  - discriminate.
  - intros (files' & Hf & _). discriminate.
Qed.

Lemma yield_batches_complete (self : t) (w : world) (files : list string) :
  (0 < batch_size self)%Z →
  batch_complete (batch_size self) (constructed self w files)
    (yield_batches self w files []).
Proof.
  intros HK. apply batched_complete; [exact HK| |].
  - apply yield_batches_batched. cbn [length]. lia.
  - exact (yield_batches_concat self w files []).
Qed.

(** C2.  With a positive [batch_size] K, the batches that
    [load_from_state] and [poll_source] yield for the M documents built
    from the enumerated files are ceil(M/K) in number, all of size K except
    possibly the last, the last of size M mod K (K when M is a multiple of
    K), and their concatenation is the documents in the order they were
    built. *)
Theorem bulk_batches_complete (self : t) (w : world) :
  (0 < batch_size self)%Z →
  (∀ files, _list_files self w None None = Ok files →
      ∃ bs, load_from_state self w = Ok bs
            ∧ batch_complete (batch_size self)
                (constructed self w files) bs)
  ∧ (∀ start end_ files,
      _list_files self w (Some start) (Some end_) = Ok files →
      ∃ bs, poll_source self w start end_ = Ok bs
            ∧ batch_complete (batch_size self)
                (constructed self w files) bs).
Proof.
  intros HK. split.
  - intros files Hf. exists (yield_batches self w files []). split.
    + apply load_from_state_inv. by exists files.
    + by apply yield_batches_complete.
  - intros start end_ files Hf. exists (yield_batches self w files []). split.
    + apply poll_source_inv. by exists files.
    + by apply yield_batches_complete.
Qed.

Lemma yield_batches_well_formed (self : t) (w : world) (files : list string) :
  Forall (λ b, b ≠ []) (yield_batches self w files [])
  ∧ ((0 < batch_size self)%Z →
     Forall (λ b, (Z.of_nat (length b) <= batch_size self)%Z)
       (yield_batches self w files []))
  ∧ concat (yield_batches self w files []) = constructed self w files
  ∧ (constructed self w files = [] → yield_batches self w files [] = []).
Proof.
  pose proof (yield_batches_nonempty self w files []) as Hne.
  pose proof (yield_batches_concat self w files []) as Hcat.
  cbn [app] in Hcat.
  split; [exact Hne|]. split; [|split; [exact Hcat|]].
  - intros HK. apply batched_bound, yield_batches_batched.
    cbn [length]. lia.
  - intros Hnil. rewrite Hnil in Hcat.
    destruct (yield_batches self w files []) as [|b bs']; [reflexivity|].
    inversion Hne as [|? ? Hb _]; subst.
    cbn [concat] in Hcat. apply app_eq_nil in Hcat as [-> _]. done.
Qed.

(** C10, as amended.  Whenever the enumeration returns a list of files,
    [load_from_state] and [poll_source] return, and every batch they yield
    is non-empty; for a [batch_size] of at least one every batch holds at
    most [batch_size] documents; the batches hold, in order, exactly the
    documents of the enumerated files whose construction succeeds (a file
    whose construction fails adds nothing and stops nothing), and when no
    construction succeeds nothing is yielded. *)
Theorem bulk_batches_bounded (self : t) (w : world) :
  (∀ files, _list_files self w None None = Ok files →
     ∃ bs, load_from_state self w = Ok bs
       ∧ Forall (λ b, b ≠ []) bs
       ∧ ((0 < batch_size self)%Z →
          Forall (λ b, (Z.of_nat (length b) <= batch_size self)%Z) bs)
       ∧ concat bs = constructed self w files
       ∧ (constructed self w files = [] → bs = []))
  ∧ (∀ start end_ files,
       _list_files self w (Some start) (Some end_) = Ok files →
       ∃ bs, poll_source self w start end_ = Ok bs
         ∧ Forall (λ b, b ≠ []) bs
         ∧ ((0 < batch_size self)%Z →
            Forall (λ b, (Z.of_nat (length b) <= batch_size self)%Z) bs)
         ∧ concat bs = constructed self w files
         ∧ (constructed self w files = [] → bs = [])).
Proof.
  split.
  - intros files Hf. exists (yield_batches self w files []). split.
    + apply load_from_state_inv. by exists files.
    + apply yield_batches_well_formed.
  - intros start end_ files Hf. exists (yield_batches self w files []). split.
    + apply poll_source_inv. by exists files.
    + apply yield_batches_well_formed.
Qed.

End bulk.

Lemma bulk_batches_complete_witness :
  (0 < LocalFolderConnector.batch_size (Scenario.connector true 10))%Z
  ∧ ∃ bs, LocalFolderConnector.load_from_state
            (Scenario.connector true 10) Scenario.world0 = Ok bs
          ∧ batch_complete 10
              (constructed (Scenario.connector true 10) Scenario.world0
                 [Scenario.a_txt]) bs.
Proof.
  split; [reflexivity|].
  apply (proj1 (bulk_batches_complete (Scenario.connector true 10)
                  Scenario.world0 eq_refl) [Scenario.a_txt]).
  vm_compute. reflexivity.
Defined.

Lemma bulk_batches_bounded_witness :
  ∃ bs doc,
    LocalFolderConnector.load_from_state (Scenario3.plain false 1)
      Scenario4.vanished_a = Ok bs
    ∧ Forall (λ b, b ≠ []) bs
    ∧ Forall (λ b, (Z.of_nat (length b) <= 1)%Z) bs
    ∧ concat bs = [doc]
    ∧ semantic_identifier doc = "b.log"%string.
Proof.
  assert (Hf : LocalFolderConnector._list_files (Scenario3.plain false 1)
                 Scenario4.vanished_a None None
               = Ok [Scenario.a_txt; Scenario.b_log])
    by (vm_compute; reflexivity).
  destruct (proj1 (bulk_batches_bounded (Scenario3.plain false 1)
                     Scenario4.vanished_a) _ Hf)
    as (bs & Hrun & Hne & Hle & Hcat & _).
  exists bs. eexists. split; [exact Hrun|]. split; [exact Hne|].
  split; [exact (Hle eq_refl)|]. split.
  - rewrite Hcat. vm_compute. reflexivity.
  - reflexivity.
Defined.

(** C10, the claim as stated fails: nothing checks [batch_size], and with
    a [batch_size] of zero each of the two documents of the scenario is
    yielded as a batch of one document, more than [batch_size]. *)
Lemma batch_larger_than_batch_size_zero :
  ∃ doc1 doc2,
    LocalFolderConnector.load_from_state (Scenario3.plain false 0)
      Scenario.world0 = Ok [[doc1]; [doc2]]
    ∧ (Z.of_nat (length [doc1])
       > LocalFolderConnector.batch_size (Scenario3.plain false 0))%Z.
Proof. do 2 eexists. split; [vm_compute; reflexivity|reflexivity]. Qed.

(** ** The pending-changes table *)

Section tables.
Context {V : Type}.
Implicit Types (d : list (string * V)) (k p q : string) (v : V).

Lemma dict_get_set_eq d k v : dict_get (dict_set d k v) k = Some v.
Proof.
  induction d as [|[k' v'] d IH]; cbn.
  - by rewrite String.eqb_refl.
  - destruct (String.eqb_spec k' k) as [->|Hne]; cbn.
    + by rewrite String.eqb_refl.
    + apply String.eqb_neq in Hne. by rewrite Hne.
Qed.

Lemma dict_get_set_ne d k q v :
  k ≠ q → dict_get (dict_set d k v) q = dict_get d q.
Proof.
  intros Hne. induction d as [|[k' v'] d IH]; cbn.
  - apply String.eqb_neq in Hne. by rewrite Hne.
  - destruct (String.eqb_spec k' k) as [->|Hne']; cbn.
    + apply String.eqb_neq in Hne. by rewrite Hne.
    + by rewrite IH.
Qed.

Lemma dict_get_del_eq d k : dict_get (dict_del d k) k = None.
Proof.
  unfold dict_del.
  induction d as [|[k' v'] d IH]; cbn; [done|].
  destruct (String.eqb_spec k' k) as [->|Hne]; cbn; [done|].
  apply String.eqb_neq in Hne. by rewrite Hne.
Qed.

Lemma dict_get_del_ne d k q :
  k ≠ q → dict_get (dict_del d k) q = dict_get d q.
Proof.
  intros Hne. unfold dict_del.
  induction d as [|[k' v'] d IH]; cbn; [done|].
  destruct (String.eqb_spec k' k) as [->|Hne']; cbn.
  - apply String.eqb_neq in Hne. by rewrite Hne.
  - by rewrite IH.
Qed.

(** A key that is set keeps its place in the table: the keys change only
    when the key is new, and then it is added at the end. *)
Lemma dict_set_keys d k v :
  map fst (dict_set d k v)
  = match dict_get d k with
    | Some _ => map fst d
    | None => map fst d ++ [k]
    end.
Proof.
  induction d as [|[k' v'] d IH]; cbn;
    [done|].
  destruct (String.eqb_spec k' k) as [->|Hne]; cbn; [done|].
  rewrite IH. by destruct (dict_get d k).
Qed.

End tables.

Lemma entries_get (d : list (string * Z)) (p : string) :
  dict_get d p = snd <$> head (entries d p).
Proof.
  unfold entries.
  induction d as [|[k v] d IH]; cbn; [done|].
  by destruct (String.eqb k p).
Qed.

Lemma entries_set_eq (d : list (string * Z)) (p : string) (v : Z) :
  entries (dict_set d p v) p = (p, v) :: tail (entries d p).
Proof.
  unfold entries.
  induction d as [|[k v'] d IH]; cbn.
  - by rewrite String.eqb_refl.
  - destruct (String.eqb_spec k p) as [->|Hne]; cbn.
    + by rewrite String.eqb_refl.
    + apply String.eqb_neq in Hne. by rewrite Hne, IH.
Qed.

Lemma entries_set_ne (d : list (string * Z)) (p q : string) (v : Z) :
  q ≠ p → entries (dict_set d q v) p = entries d p.
Proof.
  intros Hne. unfold entries.
  induction d as [|[k v'] d IH]; cbn.
  - apply String.eqb_neq in Hne. by rewrite Hne.
  - destruct (String.eqb_spec k q) as [->|Hne']; cbn.
    + apply String.eqb_neq in Hne. by rewrite Hne.
    + by rewrite IH.
Qed.

Lemma entries_del (d : list (string * Z)) (p q : string) :
  entries (dict_del d q) p = if String.eqb q p then [] else entries d p.
Proof.
  unfold entries, dict_del.
  induction d as [|[k v] d IH]; cbn.
  - by destruct (String.eqb q p).
  - destruct (String.eqb k q) eqn:Hkq; cbn; rewrite IH.
    + apply String.eqb_eq in Hkq. subst k.
      by destruct (String.eqb q p).
    + destruct (String.eqb q p) eqn:Hqp; [|done].
      apply String.eqb_eq in Hqp. subst p. by rewrite Hkq.
Qed.

Lemma entries_del_all (qs : list string) : ∀ (d : list (string * Z))
    (p : string),
  entries (fold_left dict_del qs d) p
  = if existsb (String.eqb p) qs then [] else entries d p.
Proof.
  induction qs as [|q qs IH]; intros d p; cbn [fold_left existsb]; [done|].
  rewrite IH, entries_del, (String.eqb_sym p q).
  destruct (String.eqb q p); cbn [orb]; [|done].
  by destruct (existsb _ _).
Qed.

Lemma ready_paths_of (now D : Z) (items : list (string * Z)) (p : string) :
  List.filter (String.eqb p) (ready_paths now D items)
  = map fst (List.filter (ready now D) (entries items p)).
Proof.
  unfold ready_paths, entries.
  induction items as [|[k v] items IH]; [done|].
  cbn [List.filter fst]. rewrite (String.eqb_sym k p).
  destruct (ready now D (k, v)) eqn:Hr, (String.eqb p k) eqn:Hk;
    cbn [List.filter map fst]; rewrite ?Hr, ?Hk; cbn [map fst];
    by rewrite IH.
Qed.

Lemma existsb_filter (p : string) (qs : list string) :
  existsb (String.eqb p) qs
  = negb (is_empty (List.filter (String.eqb p) qs)).
Proof.
  induction qs as [|q qs IH]; cbn [existsb List.filter]; [done|].
  by destruct (String.eqb p q).
Qed.

(** ** One sync attempt of the watcher *)

Section sync.
Context `{!PyLib}.
Import FileChangeHandler.

Lemma open_rb_content (w : world) (path : string) (f : file_handle) :
  open_rb w path = Ok f → content w path = Some (read_all f).
Proof.
  unfold open_rb. destruct (content w path) as [bs|]; [|discriminate].
  by intros [= <-].
Qed.

Lemma sync_outcomes (w : world) (self : t) (path : string) :
  sync_outcome w self path (_sync_file_to_ragflow w self path).
Proof.
  unfold _sync_file_to_ragflow.
  destruct (_compute_file_hash w path) as [h|e] eqn:Hh;
    [|apply sync_error_before_upload].
  case_bool_decide as Hold; [by eapply sync_unchanged|].
  destruct (_get_file_metadata self w path) as [meta|e] eqn:Hm;
    [|apply sync_error_before_upload].
  destruct (open_rb w path) as [f|e] eqn:Hf;
    [|apply sync_error_before_upload].
  apply open_rb_content in Hf.
  destruct (post w _) as [resp|] eqn:Hpost;
    [|by eapply sync_upload_raised].
  destruct (Z.eqb_spec (status_code resp) 200) as [H200|H200].
  - by eapply sync_uploaded.
  - by eapply sync_upload_rejected.
Qed.

(** Which upload a sync attempt issues, if any, depends on the file and on
    the tracked fingerprint only: not on what the server answers. *)
Lemma sync_posts_ext (w w' : world) (self : t) (path : string) :
  content w' path = content w path → stat w' path = stat w path →
  posts (snd (_sync_file_to_ragflow w' self path))
  = posts (snd (_sync_file_to_ragflow w self path)).
Proof.
  intros Hc Hs.
  unfold _sync_file_to_ragflow, _get_file_metadata, _compute_file_hash,
    open_rb.
  rewrite Hc, Hs.
  destruct (content w path) as [bs|]; cbn; [|done].
  case_bool_decide; [done|].
  destruct (stat w path) as [st|]; cbn; [|done].
  destruct (post w' _) as [r'|], (post w _) as [r|];
    repeat match goal with
           | |- context [(status_code ?r =? 200)%Z] =>
               destruct (status_code r =? 200)%Z
           end; reflexivity.
Qed.

(** The same with another modification time: the decision to upload is
    not affected. *)
Lemma sync_posts_touch (w : world) (self : t) (path : string) (mtime : Z) :
  is_empty (posts (snd (_sync_file_to_ragflow (touch w path mtime)
                          self path)))
  = is_empty (posts (snd (_sync_file_to_ragflow w self path))).
Proof.
  unfold _sync_file_to_ragflow, _get_file_metadata, _compute_file_hash,
    open_rb, touch.
  cbn [content stat post]. rewrite String.eqb_refl.
  destruct (content w path) as [bs|]; cbn; [|done].
  case_bool_decide; [done|].
  destruct (stat w path) as [st|]; cbn; [|done].
  repeat match goal with
         | |- context [post w ?r] => destruct (post w r)
         | |- context [(status_code ?r =? 200)%Z] =>
             destruct (status_code r =? 200)%Z
         end; reflexivity.
Qed.

End sync.

Section delivery.
Context `{!PyLib}.
Import FileChangeHandler.

(** C3, as amended.  A sync attempt issues at most one upload; it changes
    nothing of the handler except, when that upload is answered with status
    200, the fingerprint of the path, set to the digest just computed.
    After an upload that failed the fingerprint map is as before, so a later
    attempt on the same file issues the same upload again. *)
Theorem fingerprint_committed_only_on_acknowledged_upload
    (w : world) (self : t) (path : string) :
  let self' := fst (_sync_file_to_ragflow w self path) in
  let done := snd (_sync_file_to_ragflow w self path) in
  length (posts done) ≤ 1
  ∧ pending_changes self' = pending_changes self
  ∧ (file_hashes self' = file_hashes self
     ∨ ∃ h req resp,
         _compute_file_hash w path = Ok h
         ∧ posts done = [req] ∧ post w req = Some resp
         ∧ status_code resp = 200%Z
         ∧ file_hashes self' = <[path := h]> (file_hashes self))
  ∧ (∀ req, posts done = [req] →
       (∀ resp, post w req = Some resp → status_code resp ≠ 200%Z) →
       self' = self
       ∧ ∀ w', content w' path = content w path →
               stat w' path = stat w path →
               posts (snd (_sync_file_to_ragflow w' self' path)) = [req]).
Proof.
  cbn zeta.
  pose proof (λ w', sync_posts_ext w w' self path) as Hext.
  pose proof (sync_outcomes w self path) as Ho.
  remember (_sync_file_to_ragflow w self path) as r eqn:Er. clear Er.
  destruct Ho
    as [|h Hh Hold|h bs meta Hh Hold Hm Hc Hp
        |h bs meta resp Hh Hold Hm Hc Hp Hs
        |h bs meta resp Hh Hold Hm Hc Hp Hs];
    cbn [fst snd posts flat_map app length pending_changes file_hashes
         set_file_hashes] in *.
  - split; [lia|]. split; [done|]. split; [by left|]. discriminate.
  - split; [lia|]. split; [done|]. split; [by left|]. discriminate.
  - split; [lia|]. split; [done|]. split; [by left|].
    intros req' [= <-] _. split; [done|]. intros w' Hc' Hs'. by apply Hext.
  - split; [lia|]. split; [done|]. split; [by left|].
    intros req' [= <-] _. split; [done|]. intros w' Hc' Hs'. by apply Hext.
  - split; [lia|]. split; [done|]. split.
    + right. by exists h, (upload_request self path bs meta), resp.
    + intros req [= <-] Hno. by destruct (Hno resp Hp).
Qed.

(** C5.  When the fingerprint computed for a file equals the tracked one,
    the sync attempt logs the file as unchanged, uploads nothing and leaves
    the handler as it was; the file is logged as unchanged only in that
    case; and giving the file another modification time does not change
    whether an upload is issued. *)
Theorem unchanged_fingerprint_is_not_uploaded
    (w : world) (self : t) (path : string) :
  (∀ h, _compute_file_hash w path = Ok h →
        file_hashes self !! path = Some h →
        _sync_file_to_ragflow w self path
        = (self, [Log (SyncingFile path); Log (FileUnchanged path)])
        ∧ posts (snd (_sync_file_to_ragflow w self path)) = [])
  ∧ (In (Log (FileUnchanged path)) (snd (_sync_file_to_ragflow w self path))
     → ∃ h, _compute_file_hash w path = Ok h
            ∧ file_hashes self !! path = Some h)
  ∧ (∀ mtime,
       is_empty (posts (snd (_sync_file_to_ragflow (touch w path mtime)
                               self path)))
       = is_empty (posts (snd (_sync_file_to_ragflow w self path)))).
Proof.
  split; [|split].
  - intros h Hh Hold. unfold _sync_file_to_ragflow. rewrite Hh.
    rewrite bool_decide_eq_true_2 by exact Hold. by split.
  - destruct (sync_outcomes w self path)
      as [|h Hh Hold|h bs meta Hh Hold Hm Hc Hp
          |h bs meta resp Hh Hold Hm Hc Hp Hs
          |h bs meta resp Hh Hold Hm Hc Hp Hs];
      cbn [snd In]; intros Hin;
      try (by exists h);
      repeat (destruct Hin as [Hin|Hin]; [discriminate Hin|]);
      destruct Hin.
  - intros mtime. apply sync_posts_touch.
Qed.

(** What [_handle_file_change] does for a path that does not exist. *)
Lemma handle_missing (w : world) (self : t) (path : string) :
  exists_ w path = false →
  _handle_file_change w self path
  = set_file_hashes self (delete path (file_hashes self)).
Proof.
  intros He. unfold _handle_file_change. rewrite He. cbn [negb].
  case_bool_decide as Hin; [done|].
  destruct self as [u a c f ps D hs pend]; unfold set_file_hashes; cbn in *.
  f_equal. symmetry. apply delete_id.
  destruct (hs !! path) eqn:E; [|done]. by destruct Hin.
Qed.

Lemma sync_missing (w : world) (self : t) (path : string) :
  content w path = None →
  _sync_file_to_ragflow w self path
  = (self, [Log (SyncingFile path); Log (ErrorSyncing path)]).
Proof.
  intros Hc. unfold _sync_file_to_ragflow.
  by rewrite (watcher_hash_missing w path Hc).
Qed.

End delivery.

(** ** The drain cycle *)

Section drain.
Context `{!PyLib}.
Import FileChangeHandler.

(** The first loop of [process_pending_changes] splits the table into the
    ready paths, in the order of the table, and the rest. *)
Lemma drain_fold (now D : Z) (items : list (string * Z)) :
  ∀ (to_process : list string) (pending : list (string * Z)),
    fold_left (drain_step now D) items (to_process, pending)
    = (to_process ++ ready_paths now D items,
       fold_left dict_del (ready_paths now D items) pending).
Proof.
  unfold ready_paths.
  induction items as [|[k v] items IH]; intros tp pd;
    cbn [fold_left List.filter map].
  - by rewrite app_nil_r.
  - change (drain_step now D (tp, pd) (k, v))
      with (if ready now D (k, v)
            then (tp ++ [k], dict_del pd k) else (tp, pd)).
    destruct (ready now D (k, v)); cbn [map fst fold_left]; rewrite IH.
    + by rewrite <- app_assoc.
    + done.
Qed.

Lemma process_pending_changes_eq (w : world) (self : t) :
  process_pending_changes w self
  = sync_all w
      (set_pending_changes self
         (fold_left dict_del
            (ready_paths (time w) (debounce_seconds self)
               (pending_changes self))
            (pending_changes self)))
      (ready_paths (time w) (debounce_seconds self) (pending_changes self)).
Proof.
  unfold process_pending_changes. by rewrite drain_fold.
Qed.

(** A sync attempt touches the fingerprints only. *)
Lemma sync_keeps_config (w : world) (self : t) (path : string) :
  let self' := fst (_sync_file_to_ragflow w self path) in
  pending_changes self' = pending_changes self
  ∧ debounce_seconds self' = debounce_seconds self
  ∧ file_patterns self' = file_patterns self.
Proof.
  cbn zeta. by destruct (sync_outcomes w self path).
Qed.

Lemma sync_all_keeps_config (w : world) (paths : list string) :
  ∀ self : t,
    let self' := fst (sync_all w self paths) in
    pending_changes self' = pending_changes self
    ∧ debounce_seconds self' = debounce_seconds self
    ∧ file_patterns self' = file_patterns self.
Proof.
  induction paths as [|p paths IH]; intros self; cbn [sync_all]; [done|].
  pose proof (sync_keeps_config w self p) as (H1 & H2 & H3).
  destruct (_sync_file_to_ragflow w self p) as [self1 done1].
  specialize (IH self1). destruct (sync_all w self1 paths) as [self2 done2].
  cbn [fst] in *. destruct IH as (I1 & I2 & I3). by rewrite I1, I2, I3.
Qed.

(** Every sync attempt starts with one release line for its path and
    logs no release of another path. *)
Lemma sync_releases (w : world) (self : t) (path p : string) :
  List.filter (is_release p) (snd (_sync_file_to_ragflow w self path))
  = if String.eqb path p then [Log (SyncingFile path)] else [].
Proof.
  destruct (sync_outcomes w self path); cbn [snd List.filter is_release];
    by destruct (String.eqb path p).
Qed.

Lemma sync_all_releases (w : world) (p : string) (paths : list string) :
  ∀ self : t,
    length (List.filter (is_release p) (snd (sync_all w self paths)))
    = length (List.filter (String.eqb p) paths).
Proof.
  induction paths as [|q paths IH]; intros self; cbn [sync_all]; [done|].
  pose proof (sync_releases w self q p) as Hq.
  destruct (_sync_file_to_ragflow w self q) as [self1 done1].
  specialize (IH self1). destruct (sync_all w self1 paths) as [self2 done2].
  cbn [snd] in *. rewrite List.filter_app, length_app, Hq, IH.
  cbn [List.filter]. rewrite (String.eqb_sym p q).
  by destruct (String.eqb q p).
Qed.

(** A drain cycle releases a path once for each of its entries that is
    ready, and removes exactly the ready paths from the table. *)
Lemma drain_releases (w : world) (self : t) (p : string) :
  length (List.filter (is_release p) (snd (process_pending_changes w self)))
  = length (List.filter (ready (time w) (debounce_seconds self))
              (entries (pending_changes self) p)).
Proof.
  rewrite process_pending_changes_eq, sync_all_releases, ready_paths_of.
  by rewrite length_map.
Qed.

Lemma drain_entries (w : world) (self : t) (p : string) :
  entries (pending_changes (fst (process_pending_changes w self))) p
  = if is_empty (List.filter (ready (time w) (debounce_seconds self))
                   (entries (pending_changes self) p))
    then entries (pending_changes self) p else [].
Proof.
  rewrite process_pending_changes_eq.
  destruct (sync_all_keeps_config w
              (ready_paths (time w) (debounce_seconds self)
                 (pending_changes self))
              (set_pending_changes self
                 (fold_left dict_del
                    (ready_paths (time w) (debounce_seconds self)
                       (pending_changes self))
                    (pending_changes self)))) as (-> & _ & _).
  cbn [pending_changes set_pending_changes].
  rewrite entries_del_all, existsb_filter, ready_paths_of.
  by destruct (List.filter _ (entries _ p)).
Qed.

Lemma drain_keeps_config (w : world) (self : t) :
  let self' := fst (process_pending_changes w self) in
  debounce_seconds self' = debounce_seconds self
  ∧ file_patterns self' = file_patterns self.
Proof.
  cbn zeta. rewrite process_pending_changes_eq.
  destruct (sync_all_keeps_config w
              (ready_paths (time w) (debounce_seconds self)
                 (pending_changes self))
              (set_pending_changes self
                 (fold_left dict_del
                    (ready_paths (time w) (debounce_seconds self)
                       (pending_changes self))
                    (pending_changes self)))) as (_ & -> & ->).
  done.
Qed.

(** C6, as amended.  A delete notification for a path that no longer
    exists removes the tracked fingerprint of the path and leaves the
    pending-changes table as it is; a path that was pending is therefore
    still released, once, by the first drain cycle after its quiet period;
    and a sync attempt on a file that cannot be read uploads nothing and
    changes nothing. *)
Theorem delete_keeps_pending_entry (w : world) (self : t)
    (event : FileSystemEvent) :
  is_directory event = false →
  exists_ w (src_path event) = false →
  let path := src_path event in
  let self' := on_deleted w self event in
  pending_changes self' = pending_changes self
  ∧ file_hashes self' = delete path (file_hashes self)
  ∧ (∀ w2 t0, entries (pending_changes self) path = [(path, t0)] →
       (time w2 - t0 >= debounce_seconds self)%Z →
       length (List.filter (is_release path)
                 (snd (process_pending_changes w2 self'))) = 1)
  ∧ (∀ w2 h, content w2 path = None →
       _sync_file_to_ragflow w2 h path
       = (h, [Log (SyncingFile path); Log (ErrorSyncing path)])).
Proof.
  intros Hdir Hex. cbn zeta. unfold on_deleted. rewrite Hdir. cbn [negb].
  rewrite (handle_missing w self _ Hex).
  cbn [pending_changes file_hashes set_file_hashes].
  split; [done|]. split; [done|]. split.
  - intros w2 t0 Hent Hready. rewrite drain_releases.
    cbn [pending_changes set_file_hashes debounce_seconds].
    rewrite Hent. cbn [List.filter]. unfold ready at 1. cbn [snd].
    destruct (Z.geb_spec (time w2 - t0) (debounce_seconds self)); [done|lia].
  - intros w2 h Hc. by apply sync_missing.
Qed.

End drain.

(** ** Debouncing *)

Section debounce.
Context `{!PyLib}.
Import FileChangeHandler.

Lemma handle_keeps_config (w : world) (self : t) (q : string) :
  debounce_seconds (_handle_file_change w self q) = debounce_seconds self
  ∧ file_patterns (_handle_file_change w self q) = file_patterns self.
Proof.
  unfold _handle_file_change.
  repeat match goal with
         | |- context [if ?b then _ else _] => destruct b
         end; done.
Qed.

Lemma should_include_ext (self self' : t) (q : string) :
  file_patterns self' = file_patterns self →
  _should_include_file self' q = _should_include_file self q.
Proof. intros Hp. unfold _should_include_file. by rewrite Hp. Qed.

(** A change to an existing, included regular file records the current
    time for the path, over the entry the path may already have; anything
    else leaves the table alone. *)
Lemma handle_entries (w : world) (self : t) (q p : string) :
  entries (pending_changes (_handle_file_change w self q)) p
  = if exists_ w q && isfile w q && _should_include_file self q
       && String.eqb q p
    then (p, time w) :: tail (entries (pending_changes self) p)
    else entries (pending_changes self) p.
Proof.
  unfold _handle_file_change.
  destruct (exists_ w q); cbn [negb andb].
  2:{ by case_bool_decide. }
  destruct (isfile w q); cbn [negb andb]; [|done].
  destruct (_should_include_file self q); cbn [negb andb]; [|done].
  cbn [pending_changes set_pending_changes].
  destruct (String.eqb_spec q p) as [->|Hne].
  - apply entries_set_eq.
  - by apply entries_set_ne.
Qed.

Lemma dispatch_keeps_config (w : world) (self : t) (e : FileSystemEvent) :
  debounce_seconds (dispatch w self e) = debounce_seconds self
  ∧ file_patterns (dispatch w self e) = file_patterns self.
Proof.
  unfold dispatch, on_created, on_modified, on_deleted, on_moved.
  destruct (kind e), (is_directory e); cbn [negb]; try done;
    try apply handle_keeps_config.
  destruct (handle_keeps_config w
              (_handle_file_change w self (src_path e)) (dest_path e))
    as [-> ->].
  apply handle_keeps_config.
Qed.

Lemma dispatch_entries (w : world) (self : t) (e : FileSystemEvent)
    (p : string) :
  entries (pending_changes (dispatch w self e)) p
  = if notifies self p (Notified w e)
    then (p, time w) :: tail (entries (pending_changes self) p)
    else entries (pending_changes self) p.
Proof.
  unfold dispatch, on_created, on_modified, on_deleted, on_moved,
    notifies, event_paths.
  destruct (is_directory e); cbn [negb andb].
  { by destruct (kind e). }
  destruct (kind e); cbn [existsb orb]; rewrite handle_entries.
  1-3: rewrite orb_false_r, (String.eqb_sym p (src_path e));
       destruct (String.eqb_spec (src_path e) p) as [->|Hne];
       rewrite ?andb_true_r, ?andb_false_r; cbn [andb]; done.
  rewrite (should_include_ext self _ (dest_path e))
    by apply handle_keeps_config.
  rewrite handle_entries, orb_false_r.
  rewrite (String.eqb_sym p (src_path e)), (String.eqb_sym p (dest_path e)).
  destruct (String.eqb_spec (src_path e) p) as [Hs|Hs],
           (String.eqb_spec (dest_path e) p) as [Hd|Hd];
    rewrite ?Hs, ?Hd, ?andb_true_r, ?andb_false_r; cbn [andb orb];
    try done;
    destruct (exists_ w p && isfile w p && _should_include_file self p);
    done.
Qed.

Lemma notifies_ext (self self' : t) (p : string) (o : occurrence) :
  file_patterns self' = file_patterns self →
  notifies self' p o = notifies self p o.
Proof.
  intros Hp. destruct o as [w e|w]; cbn [notifies]; [|done].
  by rewrite (should_include_ext self self' p Hp).
Qed.

Lemma notification_times_ext (self self' : t) (p : string)
    (os : list occurrence) :
  file_patterns self' = file_patterns self →
  notification_times self' p os = notification_times self p os.
Proof.
  intros Hp. unfold notification_times. f_equal.
  apply List.filter_ext. intros o. by apply notifies_ext.
Qed.

Lemma releases_app (p : string) (l1 l2 : list (Z * action)) :
  releases p (l1 ++ l2) = releases p l1 ++ releases p l2.
Proof. unfold releases. by rewrite List.filter_app, map_app. Qed.

Lemma releases_stamp (p : string) (now : Z) (done : list action) :
  releases p (map (pair now) done)
  = repeat now (length (List.filter (is_release p) done)).
Proof.
  unfold releases. induction done as [|a done IH]; [done|].
  cbn [map List.filter snd]. destruct (is_release p a); cbn; by rewrite IH.
Qed.

Lemma run_drained (self : t) (w : world) (os : list occurrence)
    (p : string) :
  releases p (snd (run self (Drained w :: os)))
  = repeat (time w)
      (length (List.filter (is_release p)
                 (snd (process_pending_changes w self))))
    ++ releases p (snd (run (fst (process_pending_changes w self)) os)).
Proof.
  cbn [run]. destruct (process_pending_changes w self) as [self1 done1].
  cbn [fst snd].
  destruct (run self1 os) as [self2 done2]. cbn [fst snd].
  by rewrite releases_app, releases_stamp.
Qed.

Lemma ascending_head (t : Z) (ts : list Z) :
  ascending (t :: ts) → Forall (λ s, (t <= s)%Z) ts.
Proof.
  revert t. induction ts as [|s ts IH]; intros t Hasc; [constructor|].
  destruct Hasc as [Hts Hasc]. constructor; [done|].
  eapply Forall_impl; [apply (IH s Hasc)|]. cbn beta. intros. lia.
Qed.

Lemma ascending_tail (t : Z) (ts : list Z) :
  ascending (t :: ts) → ascending ts.
Proof. destruct ts; [done|]. by intros [_ ?]. Qed.

Lemma ascending_skip (t s : Z) (ts : list Z) :
  ascending (t :: s :: ts) → ascending (t :: ts).
Proof.
  intros [Hts Hasc]. destruct ts as [|u ts]; [done|].
  destruct Hasc as [Hsu Hasc]. split; [lia|done].
Qed.

Lemma notification_times_in (self : t) (p : string) (os : list occurrence)
    (s : Z) :
  In s (notification_times self p os) → In s (map occurrence_time os).
Proof.
  unfold notification_times. rewrite !in_map_iff.
  intros (o & <- & Hin). apply List.filter_In in Hin as [Hin _]. eauto.
Qed.

Lemma last_cons_default {A} (x d d' : A) (l : list A) :
  List.last (x :: l) d = List.last (x :: l) d'.
Proof.
  revert x. induction l as [|y l IH]; intros x; [done|].
  change (List.last (y :: l) d = List.last (y :: l) d'). apply IH.
Qed.

(** While the path is not pending and no notification for it arrives,
    nothing releases it. *)
Lemma run_idle (p : string) (os : list occurrence) : ∀ self : t,
  entries (pending_changes self) p = [] →
  notification_times self p os = [] →
  releases p (snd (run self os)) = [].
Proof.
  induction os as [|[w e|w] os IH]; intros self Hent Hno; [done| |].
  - cbn [run]. unfold notification_times in Hno. cbn [List.filter] in Hno.
    destruct (notifies self p (Notified w e)) eqn:Hn; [discriminate|].
    apply IH.
    + by rewrite dispatch_entries, Hn.
    + rewrite (notification_times_ext self) by apply dispatch_keeps_config.
      exact Hno.
  - rewrite run_drained, drain_releases, Hent. cbn [List.filter length repeat app].
    apply IH.
    + rewrite drain_entries, Hent. done.
    + rewrite (notification_times_ext self) by apply drain_keeps_config.
      exact Hno.
Qed.

(** From the moment the path is pending with time [t]. *)
Lemma run_pending (p : string) (os : list occurrence) : ∀ (self : t) (t0 : Z),
  entries (pending_changes self) p = [(p, t0)] →
  ascending (t0 :: map occurrence_time os) →
  close_together (debounce_seconds self)
    (t0 :: notification_times self p os) →
  let rel := releases p (snd (run self os)) in
  let tl := List.last (notification_times self p os) t0 in
  length rel ≤ 1
  ∧ Forall (λ s, (tl + debounce_seconds self <= s)%Z) rel
  ∧ (∀ os1 w os2, os = os1 ++ Drained w :: os2 →
       notification_times self p os2 = [] →
       (tl + debounce_seconds self <= time w)%Z →
       length rel = 1).
Proof.
  induction os as [|[w e|w] os IH]; intros self t0 Hent Hasc Hclose;
    cbn zeta.
  - cbn [run snd]. split; [cbn; lia|]. split; [constructor|].
    intros os1 w os2 Hos. by destruct os1.
  - (* a notification *)
    cbn [run]. unfold notification_times in *.
    cbn [List.filter map occurrence_time] in *.
    pose proof (dispatch_keeps_config w self e) as [HD HP].
    pose proof (dispatch_entries w self e p) as Hent'.
    assert (Hext : List.filter (notifies (dispatch w self e) p) os
                   = List.filter (notifies self p) os).
    { apply List.filter_ext. intros o. by apply notifies_ext. }
    destruct (notifies self p (Notified w e)) eqn:Hn.
    + (* it marks the path *)
      rewrite Hent in Hent'. cbn [tail] in Hent'.
      cbn [map occurrence_time] in Hclose.
      destruct Hclose as [Hgap Hclose].
      destruct (IH (dispatch w self e) (time w) Hent'
                  (ascending_tail _ _ Hasc)) as (H1 & H2 & H3).
      { rewrite HD, Hext. exact Hclose. }
      rewrite HD, Hext in *.
      assert (Hlast :
        List.last (map occurrence_time
                     (Notified w e :: List.filter (notifies self p) os)) t0
        = List.last (map occurrence_time
                       (List.filter (notifies self p) os)) (time w)).
      { cbn [map occurrence_time].
        destruct (map occurrence_time (List.filter (notifies self p) os))
          as [|s ss] eqn:E; [done|].
        change (List.last (time w :: s :: ss) t0)
          with (List.last (s :: ss) t0).
        apply last_cons_default. }
      rewrite Hlast. split; [exact H1|]. split; [exact H2|].
      intros os1 w2 os2 Hos Hno Hlate.
      destruct os1 as [|o os1]; [discriminate|].
      injection Hos as _ Hos. eapply H3; eauto.
      rewrite <- Hno. f_equal. apply List.filter_ext.
      intros o'. by apply notifies_ext.
    + (* it does not *)
      rewrite Hent in Hent'.
      destruct (IH (dispatch w self e) t0 Hent'
                  (ascending_skip _ _ _ Hasc)) as (H1 & H2 & H3).
      { rewrite HD, Hext. exact Hclose. }
      rewrite HD, Hext in *.
      split; [exact H1|]. split; [exact H2|].
      intros os1 w2 os2 Hos Hno Hlate.
      destruct os1 as [|o os1]; [discriminate|].
      injection Hos as _ Hos. eapply H3; eauto.
      rewrite <- Hno. f_equal. apply List.filter_ext.
      intros o'. by apply notifies_ext.
  - (* a drain cycle *)
    rewrite run_drained, drain_releases, Hent.
    pose proof (drain_keeps_config w self) as [HD HP].
    pose proof (drain_entries w self p) as Hent'. rewrite Hent in Hent'.
    assert (Hnt : notification_times self p (Drained w :: os)
                  = notification_times self p os) by reflexivity.
    rewrite Hnt in *.
    assert (Hext : notification_times
                     (fst (process_pending_changes w self)) p os
                   = notification_times self p os).
    { by apply notification_times_ext. }
    cbn [List.filter] in *.
    change (ready (time w) (debounce_seconds self) (p, t0))
      with (time w - t0 >=? debounce_seconds self)%Z in *.
    cbn [map occurrence_time] in *.
    destruct (Z.geb_spec (time w - t0) (debounce_seconds self))
      as [Hready|Hwait]; cbn [is_empty length repeat app] in *.
    + (* released now: no notification can follow *)
      assert (Hnone : notification_times self p os = []).
      { destruct (notification_times self p os) as [|s ss] eqn:E; [done|].
        exfalso. destruct Hclose as [Hgap _].
        assert (Hin : In s (map occurrence_time os)).
        { apply (notification_times_in self p). rewrite E. by left. }
        pose proof (ascending_head _ _ (ascending_tail _ _ Hasc)) as Hall.
        rewrite List.Forall_forall in Hall. specialize (Hall s Hin).
        cbn beta in Hall. lia. }
      rewrite Hnone. cbn [List.last].
      rewrite (run_idle p os _ Hent') by (by rewrite Hext).
      cbn [length]. split; [lia|]. split.
      * constructor; [lia|constructor].
      * done.
    + (* still waiting *)
      destruct (IH (fst (process_pending_changes w self)) t0 Hent'
                  (ascending_skip _ _ _ Hasc)) as (H1 & H2 & H3).
      { rewrite HD, Hext. exact Hclose. }
      rewrite HD, Hext in *.
      split; [exact H1|]. split; [exact H2|].
      intros os1 w2 os2 Hos Hno Hlate.
      destruct os1 as [|o os1].
      * injection Hos as -> <-. rewrite Hno in Hlate. cbn [List.last] in Hlate.
        lia.
      * injection Hos as _ Hos. eapply H3; eauto.
        rewrite <- Hno. by apply notification_times_ext.
Qed.

End debounce.

Section coalescing.
Context `{!PyLib}.
Import FileChangeHandler.

Lemma run_from_idle (p : string) (os : list occurrence) : ∀ self : t,
  entries (pending_changes self) p = [] →
  ascending (map occurrence_time os) →
  close_together (debounce_seconds self) (notification_times self p os) →
  notification_times self p os ≠ [] →
  let rel := releases p (snd (run self os)) in
  let tl := List.last (notification_times self p os) 0%Z in
  length rel ≤ 1
  ∧ Forall (λ s, (tl + debounce_seconds self <= s)%Z) rel
  ∧ (∀ os1 w os2, os = os1 ++ Drained w :: os2 →
       notification_times self p os2 = [] →
       (tl + debounce_seconds self <= time w)%Z →
       length rel = 1).
Proof.
  induction os as [|[w e|w] os IH]; intros self Hent Hasc Hclose Hsome;
    cbn zeta; [done| |].
  - pose proof (dispatch_keeps_config w self e) as [HD HP].
    pose proof (dispatch_entries w self e p) as Hent'.
    pose proof (notification_times_ext self (dispatch w self e) p os HP)
      as Hext.
    cbn [run]. unfold notification_times in Hclose, Hsome |- *.
    cbn [List.filter] in *.
    fold (notification_times self p os) in *.
    destruct (notifies self p (Notified w e)) eqn:Hn.
    + rewrite Hent in Hent'. cbn [tail] in Hent'.
      cbn [map occurrence_time] in *.
      fold (notification_times self p os) in *.
      destruct (run_pending p os (dispatch w self e) (time w) Hent' Hasc)
        as (H1 & H2 & H3).
      { rewrite HD, Hext. exact Hclose. }
      rewrite HD, Hext in *.
      assert (Hlast : List.last (time w :: notification_times self p os) 0%Z
                      = List.last (notification_times self p os) (time w)).
      { destruct (notification_times self p os) as [|s ss]; [done|].
        change (List.last (time w :: s :: ss) 0%Z)
          with (List.last (s :: ss) 0%Z).
        apply last_cons_default. }
      rewrite Hlast. split; [exact H1|]. split; [exact H2|].
      intros os1 w2 os2 Hos Hno Hlate.
      destruct os1 as [|o os1]; [discriminate|].
      injection Hos as _ Hos. eapply H3; eauto.
      rewrite <- Hno. by apply notification_times_ext.
    + rewrite Hent in Hent'.
      destruct (IH (dispatch w self e) Hent' (ascending_tail _ _ Hasc))
        as (H1 & H2 & H3).
      { rewrite HD, Hext. exact Hclose. }
      { by rewrite Hext. }
      rewrite HD, Hext in *.
      split; [exact H1|]. split; [exact H2|].
      intros os1 w2 os2 Hos Hno Hlate.
      destruct os1 as [|o os1]; [discriminate|].
      injection Hos as _ Hos. eapply H3; eauto.
      rewrite <- Hno. by apply notification_times_ext.
  - pose proof (drain_keeps_config w self) as [HD HP].
    pose proof (drain_entries w self p) as Hent'. rewrite Hent in Hent'.
    cbn [List.filter is_empty] in Hent'.
    pose proof (notification_times_ext self
                  (fst (process_pending_changes w self)) p os HP) as Hext.
    rewrite run_drained, drain_releases, Hent.
    cbn [List.filter length repeat app].
    assert (Hnt : notification_times self p (Drained w :: os)
                  = notification_times self p os) by reflexivity.
    rewrite Hnt in *.
    destruct (IH (fst (process_pending_changes w self)) Hent'
                (ascending_tail _ _ Hasc)) as (H1 & H2 & H3).
    { rewrite HD, Hext. exact Hclose. }
    { by rewrite Hext. }
    rewrite HD, Hext in *.
    split; [exact H1|]. split; [exact H2|].
    intros os1 w2 os2 Hos Hno Hlate.
    destruct os1 as [|o os1].
    + injection Hos as -> <-. done.
    + injection Hos as _ Hos. eapply H3; eauto.
      rewrite <- Hno. by apply notification_times_ext.
Qed.

(** C4, as amended.  The notifications that count are those that find
    the path an existing regular file that the patterns include
    ([notifies]): the others record nothing.  A notification for a path
    that is already pending replaces the recorded time and adds no second
    entry.  And when a path that was not pending receives one or more
    notifications, each less than the debounce time after the one before,
    then over the whole run the path is released at most once, never sooner
    than the debounce time after the last notification, and exactly once as
    soon as a drain cycle takes place that late after the last
    notification. *)
Theorem burst_of_notifications_released_once (p : string) (self : t)
    (os : list occurrence) :
  dict_get (pending_changes self) p = None →
  ascending (map occurrence_time os) →
  close_together (debounce_seconds self) (notification_times self p os) →
  notification_times self p os ≠ [] →
  let rel := releases p (snd (run self os)) in
  let tl := List.last (notification_times self p os) 0%Z in
  length rel ≤ 1
  ∧ Forall (λ s, (tl + debounce_seconds self <= s)%Z) rel
  ∧ (∀ os1 w os2, os = os1 ++ Drained w :: os2 →
       notification_times self p os2 = [] →
       (tl + debounce_seconds self <= time w)%Z →
       length rel = 1)
  ∧ (∀ (h : t) w e t0,
       dict_get (pending_changes h) p = Some t0 →
       notifies h p (Notified w e) = true →
       dict_get (pending_changes (dispatch w h e)) p = Some (time w)
       ∧ length (entries (pending_changes (dispatch w h e)) p)
         = length (entries (pending_changes h) p)).
Proof.
  intros Hidle Hasc Hclose Hsome. cbn zeta.
  assert (Hent : entries (pending_changes self) p = []).
  { rewrite entries_get in Hidle.
    by destruct (entries (pending_changes self) p). }
  destruct (run_from_idle p os self Hent Hasc Hclose Hsome)
    as (H1 & H2 & H3).
  split; [exact H1|]. split; [exact H2|]. split; [exact H3|].
  intros h w e t0 Hget Hn.
  rewrite entries_get, dispatch_entries, Hn. cbn [head fmap option_fmap
    option_map snd]. split; [done|].
  rewrite entries_get in Hget.
  by destruct (entries (pending_changes h) p).
Qed.

End coalescing.

Lemma burst_of_notifications_released_once_witness :
  releases Scenario.a_txt
    (snd (FileChangeHandler.run (Scenario2.idle_watcher ∅) Scenario2.burst))
  = [3%Z]
  ∧ length (releases Scenario.a_txt
              (snd (FileChangeHandler.run (Scenario2.idle_watcher ∅)
                      Scenario2.burst))) = 1.
Proof.
  split; [vm_compute; reflexivity|].
  assert (Hidle : dict_get
                    (FileChangeHandler.pending_changes
                       (Scenario2.idle_watcher ∅)) Scenario.a_txt = None)
    by reflexivity.
  assert (Hasc : ascending
                   (map FileChangeHandler.occurrence_time Scenario2.burst))
    by (cbn; lia).
  assert (Hclose : close_together
                     (FileChangeHandler.debounce_seconds
                        (Scenario2.idle_watcher ∅))
                     (notification_times (Scenario2.idle_watcher ∅)
                        Scenario.a_txt Scenario2.burst))
    by (vm_compute; auto).
  assert (Hsome : notification_times (Scenario2.idle_watcher ∅)
                    Scenario.a_txt Scenario2.burst ≠ [])
    by (vm_compute; discriminate).
  destruct (burst_of_notifications_released_once Scenario.a_txt
              (Scenario2.idle_watcher ∅) Scenario2.burst
              Hidle Hasc Hclose Hsome) as (_ & _ & Honce & _).
  apply (Honce
           [ FileChangeHandler.Notified (Scenario.tree 0 Scenario2.ok)
               (Scenario.event created Scenario.a_txt);
             FileChangeHandler.Notified (Scenario.tree 1 Scenario2.ok)
               (Scenario.event modified Scenario.a_txt);
             FileChangeHandler.Drained (Scenario.tree 2 Scenario2.ok) ]
           (Scenario.tree 3 Scenario2.ok)
           [ FileChangeHandler.Drained (Scenario.tree 4 Scenario2.ok) ]).
  - reflexivity.
  - reflexivity.
  - vm_compute. discriminate.
Defined.

(** ** Enumeration *)

Section enumeration.
Context `{!PyLib}.
Import LocalFolderConnector.

(** C7.  When the root directory cannot be read, the flat enumeration
    raises [ConnectorValidationError], but the recursive one returns the
    empty list of files: [os.walk] swallows the error. *)
Theorem unreadable_root_flat_raises_recursive_returns_nothing
    (self : t) (w : world) (start_time end_time : option Z) :
  scandir w (folder_path self) = None →
  (recursive self = false →
     _list_files self w start_time end_time
     = Raise (ConnectorValidationError "Cannot access directory"))
  ∧ (recursive self = true →
     _list_files self w start_time end_time = Ok []).
Proof.
  intros Hroot. unfold _list_files, walk. rewrite Hroot.
  split; intros ->; reflexivity.
Qed.

End enumeration.

Lemma unreadable_root_flat_raises_recursive_returns_nothing_witness :
  scandir Scenario.unreadable_root
    (LocalFolderConnector.folder_path (Scenario.connector true 10)) = None
  ∧ LocalFolderConnector.load_from_state (Scenario.connector true 10)
      Scenario.unreadable_root = Ok [].
Proof.
  split; [reflexivity|].
  unfold LocalFolderConnector.load_from_state.
  rewrite (proj2 (unreadable_root_flat_raises_recursive_returns_nothing
                    (Scenario.connector true 10) Scenario.unreadable_root
                    None None eq_refl) eq_refl).
  reflexivity.
Defined.

(** ** Validation of the configured folder *)

(** C8.  A folder that is a sibling of the allowed base and whose name
    merely extends the name of the base does not lie under the base, and
    yet the connector is constructed for it: the test is a prefix test on
    the characters of the two paths. *)
Theorem sibling_extending_base_name_is_accepted `{!PyLib} (w : world)
    (recursive : bool) (file_patterns : option (list string))
    (compute_hash : bool) (batch_size : Z) :
  resolves_under (getcwd w) "/ragflow/mounted_data_evil"
    "/ragflow/mounted_data" = false
  ∧ LocalFolderConnector.__init__ w "/ragflow/mounted_data_evil" recursive
      file_patterns compute_hash batch_size "/ragflow/mounted_data"
    = Ok {| LocalFolderConnector.folder_path := "/ragflow/mounted_data_evil";
            LocalFolderConnector.recursive := recursive;
            LocalFolderConnector.file_patterns := default [] file_patterns;
            LocalFolderConnector.compute_hash := compute_hash;
            LocalFolderConnector.batch_size := batch_size;
            LocalFolderConnector.allowed_base_path :=
              "/ragflow/mounted_data" |}.
Proof.
  split; reflexivity.
Qed.

(** ** Two bulk runs in a row *)

(** C9, the claim as stated fails: in the scenario of the specification
    the second of two runs over the unchanged tree yields the document of
    [a.txt] again. *)
Lemma second_bulk_run_yields_documents_again :
  ∃ doc, snd (load_twice (Scenario.connector true 10) Scenario.world0)
         = Ok [[doc]]
         ∧ semantic_identifier doc = "a.txt"%string.
Proof. eexists. split; [vm_compute; reflexivity|reflexivity]. Qed.

(** C9, as amended.  The second of two bulk runs over an unchanged tree
    yields what the first yielded: the documents of all the enumerated
    files whose construction succeeds, none being held back as
    unchanged. *)
Theorem second_bulk_run_repeats_first `{!PyLib}
    (self : LocalFolderConnector.t) (w : world) :
  snd (load_twice self w) = fst (load_twice self w)
  ∧ ∀ files bs,
      LocalFolderConnector._list_files self w None None = Ok files →
      snd (load_twice self w) = Ok bs →
      concat bs = constructed self w files.
Proof.
  split; [reflexivity|].
  intros files bs Hf Hrun. cbn [load_twice snd] in Hrun.
  apply load_from_state_inv in Hrun as (files' & Hf' & ->).
  rewrite Hf in Hf'. injection Hf' as <-.
  exact (yield_batches_concat self w files []).
Qed.

Lemma second_bulk_run_repeats_first_witness :
  ∃ bs, snd (load_twice (Scenario.connector true 10) Scenario.world0) = Ok bs
        ∧ concat bs
          = constructed (Scenario.connector true 10) Scenario.world0
              [Scenario.a_txt].
Proof.
  eexists. split; [vm_compute; reflexivity|].
  apply (proj2 (second_bulk_run_repeats_first (Scenario.connector true 10)
                  Scenario.world0) [Scenario.a_txt]);
    vm_compute; reflexivity.
Defined.

(** ** The watcher: what the claims as stated miss *)

(** C4, the claim as stated fails: [a.txt] is created at time 0 and
    deleted at time 1, two notifications within one debounce time (2) of
    each other; the delete notification records nothing, and the drain
    cycle at time 2 releases the path, one second after the last
    notification. *)
Lemma release_one_second_after_last_raw_notification :
  let h0 := Scenario2.idle_watcher ∅ in
  let os := Scenario4.created_then_deleted in
  let D := FileChangeHandler.debounce_seconds h0 in
  raw_notification_times Scenario.a_txt os = [0%Z; 1%Z]
  ∧ close_together D (raw_notification_times Scenario.a_txt os)
  ∧ releases Scenario.a_txt (snd (FileChangeHandler.run h0 os)) = [2%Z]
  ∧ (2 < List.last (raw_notification_times Scenario.a_txt os) 0 + D)%Z.
Proof. vm_compute. repeat split. Qed.

(** C3, the claim as stated fails: after an upload that the server
    rejected, the next drain cycle does nothing, although the fingerprint of
    the file is still not tracked: the path left the pending table before
    the attempt. *)
Lemma failed_upload_is_not_retried_by_next_cycle :
  let h0 := Scenario.watcher ∅ 0 in
  let w5 := Scenario.tree 5 Scenario2.server_error in
  let w6 := Scenario.tree 6 Scenario2.ok in
  let h1 := fst (FileChangeHandler.process_pending_changes w5 h0) in
  length (posts (snd (FileChangeHandler.process_pending_changes w5 h0))) = 1
  ∧ FileChangeHandler.file_hashes h1 !! Scenario.a_txt = None
  ∧ FileChangeHandler.process_pending_changes w6 h1 = (h1, []).
Proof. vm_compute. repeat split. Qed.

(** C6, the claim as stated fails: [a.txt] is pending, it is deleted and
    the delete notification arrives; the pending entry stays and the next
    drain cycle after the quiet period releases the path. *)
Lemma stale_release_after_delete :
  let h0 := Scenario.watcher ∅ 0 in
  let h1 := FileChangeHandler.dispatch (Scenario.without_a 1) h0
              (Scenario.event deleted Scenario.a_txt) in
  FileChangeHandler.pending_changes h1 = [(Scenario.a_txt, 0%Z)]
  ∧ releases Scenario.a_txt
      (snd (FileChangeHandler.run h0
              [ FileChangeHandler.Notified (Scenario.without_a 1)
                  (Scenario.event deleted Scenario.a_txt);
                FileChangeHandler.Drained (Scenario.without_a 2) ]))
    = [2%Z].
Proof. vm_compute. repeat split. Qed.

Lemma fingerprint_committed_only_on_acknowledged_upload_witness :
  let w := Scenario.tree 5 Scenario2.server_error in
  let h0 := Scenario.watcher ∅ 0 in
  ∃ req,
    posts (snd (FileChangeHandler._sync_file_to_ragflow w h0 Scenario.a_txt))
    = [req]
    ∧ fst (FileChangeHandler._sync_file_to_ragflow w h0 Scenario.a_txt) = h0
    ∧ posts (snd (FileChangeHandler._sync_file_to_ragflow
                    (Scenario.tree 9 Scenario2.ok)
                    (fst (FileChangeHandler._sync_file_to_ragflow w h0
                            Scenario.a_txt))
                    Scenario.a_txt)) = [req].
Proof.
  cbn zeta. eexists. split; [vm_compute; reflexivity|].
  match goal with
  | |- _ ∧ posts _ = [?req] =>
      destruct (fingerprint_committed_only_on_acknowledged_upload
                  (Scenario.tree 5 Scenario2.server_error)
                  (Scenario.watcher ∅ 0) Scenario.a_txt)
        as (_ & _ & _ & Hretry);
      destruct (Hretry req) as [Hsame Hagain]
  end.
  - vm_compute. reflexivity.
  - intros resp [= <-]. vm_compute. discriminate.
  - split; [exact Hsame|]. apply Hagain; reflexivity.
Defined.

Lemma unchanged_fingerprint_is_not_uploaded_witness :
  let h := Scenario.watcher {[ Scenario.a_txt := Scenario.sha256_hello ]} 0 in
  FileChangeHandler._sync_file_to_ragflow Scenario.world0 h Scenario.a_txt
  = (h, [Log (SyncingFile Scenario.a_txt);
         Log (FileUnchanged Scenario.a_txt)]).
Proof.
  cbn zeta.
  apply (proj1 (unchanged_fingerprint_is_not_uploaded Scenario.world0
                  (Scenario.watcher
                     {[ Scenario.a_txt := Scenario.sha256_hello ]} 0)
                  Scenario.a_txt) Scenario.sha256_hello).
  - vm_compute. reflexivity.
  - vm_compute. reflexivity.
Defined.

Lemma delete_keeps_pending_entry_witness :
  let h0 := Scenario.watcher ∅ 0 in
  let e := Scenario.event deleted Scenario.a_txt in
  FileChangeHandler.pending_changes
    (FileChangeHandler.on_deleted (Scenario.without_a 1) h0 e)
  = [(Scenario.a_txt, 0%Z)]
  ∧ length (List.filter (is_release Scenario.a_txt)
              (snd (FileChangeHandler.process_pending_changes
                      (Scenario.without_a 2)
                      (FileChangeHandler.on_deleted (Scenario.without_a 1)
                         h0 e)))) = 1.
Proof.
  cbn zeta.
  destruct (delete_keeps_pending_entry (Scenario.without_a 1)
              (Scenario.watcher ∅ 0)
              (Scenario.event deleted Scenario.a_txt) eq_refl eq_refl)
    as (Hpend & _ & Hrel & _).
  split; [exact Hpend|].
  apply (Hrel (Scenario.without_a 2) 0%Z); [reflexivity|].
  vm_compute. discriminate.
Defined.

(** * Further properties of the connector *)

Section listing.
Context `{!PyLib}.
Import LocalFolderConnector.

(** What the flat enumeration keeps of one entry. *)
Lemma scan_entries_spec (self : t) (w : world) (start_time end_time : option Z)
    (es : list dirent) : ∀ files : list string,
  existsb is_broken es = false →
  scan_entries self w start_time end_time es files
  = Ok (files ++
        flat_map
          (λ e, if is_regular e
                     && _should_include_file self
                          (os_path.join (folder_path self) (ent_name e))
                     && mtime_filter start_time end_time
                          (getmtime w
                             (os_path.join (folder_path self) (ent_name e)))
                then [os_path.join (folder_path self) (ent_name e)]
                else [])
          es).
Proof.
  induction es as [|e es IH]; intros files Hok.
  - cbn [scan_entries flat_map]. by rewrite app_nil_r.
  - cbn [existsb] in Hok. apply orb_false_elim in Hok as [He Hes].
    cbn [scan_entries flat_map].
    destruct e as [n|n|n|n r sub]; cbn [is_file is_regular andb ent_name];
      try discriminate; rewrite !(IH _ Hes); cbn [app]; try reflexivity.
    destruct (_should_include_file self _); cbn [negb andb]; [|done].
    destruct (mtime_filter _ _ _); [|done].
    by rewrite <- app_assoc.
Qed.

Lemma scan_entries_broken (self : t) (w : world)
    (start_time end_time : option Z) (es : list dirent) :
  ∀ files : list string,
  existsb is_broken es = true →
  scan_entries self w start_time end_time es files = Raise OSError.
Proof.
  induction es as [|e es IH]; intros files Hb; [discriminate|].
  cbn [existsb] in Hb. cbn [scan_entries].
  destruct e as [n|n|n|n r sub]; cbn [is_file is_broken orb] in *;
    try reflexivity; try (by apply IH).
  destruct (negb _); [by apply IH|]. destruct (mtime_filter _ _ _);
    by apply IH.
Qed.

Lemma flat_files_spec (self : t) (w : world)
    (start_time end_time : option Z) (es : list dirent) :
  recursive self = false →
  scandir w (folder_path self) = Some es →
  existsb is_broken es = false →
  ∃ files, _list_files self w start_time end_time = Ok files
    ∧ ∀ path, In path files ↔
        ∃ name, In (EntFile name) es
          ∧ path = os_path.join (folder_path self) name
          ∧ _should_include_file self path = true
          ∧ mtime_filter start_time end_time (getmtime w path) = true.
Proof.
  intros Hflat Hroot Hok. unfold _list_files. rewrite Hflat, Hroot.
  rewrite (scan_entries_spec self w start_time end_time es [] Hok).
  cbn [app]. eexists. split; [reflexivity|].
  intros path. rewrite in_flat_map. split.
  - intros (e & Hin & Hp).
    destruct e as [n|n|n|n r sub]; cbn [is_regular andb ent_name] in Hp;
      try (by destruct Hp).
    destruct (_should_include_file self _) eqn:Hinc; cbn [andb] in Hp;
      [|by destruct Hp].
    destruct (mtime_filter _ _ _) eqn:Hm; [|by destruct Hp].
    destruct Hp as [<-|[]]. by exists n.
  - intros (n & Hin & -> & Hinc & Hm). exists (EntFile n).
    split; [exact Hin|]. cbn [is_regular ent_name andb].
    rewrite Hinc, Hm. by left.
Qed.

(** X1.  The flat enumeration of a readable folder none of whose entries
    has an undeterminable type lists exactly the regular files directly in
    the folder that the patterns include and the time window keeps, and it
    does not fail. *)
Theorem flat_listing_membership (self : t) (w : world)
    (start_time end_time : option Z) (es : list dirent) :
  recursive self = false →
  scandir w (folder_path self) = Some es →
  existsb is_broken es = false →
  ∃ files, _list_files self w start_time end_time = Ok files
    ∧ ∀ path, In path files ↔
        ∃ name, In (EntFile name) es
          ∧ path = os_path.join (folder_path self) name
          ∧ _should_include_file self path = true
          ∧ mtime_filter start_time end_time (getmtime w path) = true.
Proof. apply flat_files_spec. Qed.

(** X2.  One entry whose type cannot be determined makes the whole flat
    enumeration fail with [ConnectorValidationError]: the [OSError] of
    [entry.is_file()] reaches the handler meant for the directory. *)
Theorem flat_listing_fails_on_undeterminable_entry (self : t) (w : world)
    (start_time end_time : option Z) (es : list dirent) (name : string) :
  recursive self = false →
  scandir w (folder_path self) = Some es →
  In (EntBroken name) es →
  _list_files self w start_time end_time
  = Raise (ConnectorValidationError "Cannot access directory").
Proof.
  intros Hflat Hroot Hin. unfold _list_files. rewrite Hflat, Hroot.
  rewrite scan_entries_broken; [reflexivity|].
  apply existsb_exists. by exists (EntBroken name).
Qed.

End listing.

Lemma flat_listing_membership_witness :
  ∃ files,
    LocalFolderConnector._list_files (Scenario.connector false 10)
      Scenario.world0 (Some 50%Z) (Some 100%Z) = Ok files
    ∧ In Scenario.a_txt files.
Proof.
  destruct (flat_listing_membership (Scenario.connector false 10)
              Scenario.world0 (Some 50%Z) (Some 100%Z)
              [EntFile "a.txt"; EntFile "b.log"] eq_refl eq_refl eq_refl)
    as (files & Hrun & Hmem).
  exists files. split; [exact Hrun|].
  apply Hmem. exists "a.txt"%string.
  split; [by left|]. split; [reflexivity|]. split; vm_compute; reflexivity.
Defined.

Lemma flat_listing_fails_on_undeterminable_entry_witness :
  LocalFolderConnector._list_files (Scenario.connector false 10)
    {| time := 0; getcwd := "/";
       scandir := λ _, Some [EntFile "a.txt"; EntBroken "x"];
       stat := stat Scenario.world0; content := content Scenario.world0;
       rglob := rglob Scenario.world0; post := post Scenario.world0 |}
    None None
  = Raise (ConnectorValidationError "Cannot access directory").
Proof.
  apply (flat_listing_fails_on_undeterminable_entry _ _ None None
           [EntFile "a.txt"; EntBroken "x"] "x"%string);
    [reflexivity|reflexivity|].
  right. by left.
Defined.

Section walking.
Context `{!PyLib}.
Import LocalFolderConnector.

Lemma dirent_nested_ind (P : dirent → Prop) :
  (∀ n, P (EntFile n)) → (∀ n, P (EntOther n)) → (∀ n, P (EntBroken n)) →
  (∀ n r sub, Forall P sub → P (EntDir n r sub)) →
  ∀ e, P e.
Proof.
  intros Hf Ho Hb Hd. fix IH 1.
  intros [n|n|n|n r sub]; [apply Hf|apply Ho|apply Hb|].
  apply Hd. induction sub as [|e sub IHsub]; constructor;
    [apply IH|exact IHsub].
Qed.

Lemma in_walk_paths_flat_map {A} (f : A → list walk_item) (l : list A)
    (path : string) :
  In path (walk_paths (flat_map f l)) ↔
  ∃ x, In x l ∧ In path (walk_paths (f x)).
Proof.
  unfold walk_paths. rewrite in_flat_map. split.
  - intros (item & Hitem & Hp).
    apply in_flat_map in Hitem as (x & Hx & Hitem).
    exists x. split; [done|]. apply in_flat_map. eauto.
  - intros (x & Hx & Hp). apply in_flat_map in Hp as (item & Hitem & Hp).
    exists item. split; [|done]. apply in_flat_map. eauto.
Qed.

Lemma in_nondirnames (top : string) (es : list dirent) (path : string) :
  In path (map (os_path.join top) (nondirnames es)) ↔
  ∃ e, In e es ∧ walk_is_dir e = false
       ∧ path = os_path.join top (ent_name e).
Proof.
  unfold nondirnames. rewrite in_map_iff. split.
  - intros (n & <- & Hn). apply in_map_iff in Hn as (e & <- & He).
    apply List.filter_In in He as [He Hd]. exists e.
    split; [done|]. split; [|done]. by destruct (walk_is_dir e).
  - intros (e & He & Hd & ->). exists (ent_name e). split; [done|].
    apply in_map_iff. exists e. split; [done|].
    apply List.filter_In. split; [done|]. by rewrite Hd.
Qed.

Lemma walk_sub_paths (e : dirent) : ∀ (top path : string),
  In path (walk_paths (walk_sub top e)) ↔
  ∃ d sub, e = EntDir d true sub ∧ tree_file (os_path.join top d) sub path.
Proof.
  induction e as [n|n|n|n r sub IH] using dirent_nested_ind;
    intros top path; cbn [walk_sub walk_paths flat_map];
    try (split; [intros []|intros (d & s & [=] & _)]).
  destruct r; cbn [walk_paths flat_map].
  2:{ split; [intros []|intros (d & s & [=] & _)]. }
  fold (walk_paths (flat_map (walk_sub (os_path.join top n)) sub)).
  rewrite in_app_iff, in_nondirnames, in_walk_paths_flat_map.
  rewrite List.Forall_forall in IH. split.
  - intros [(e & He & Hd & ->)|(e & He & Hin)].
    + exists n, sub. split; [done|]. by apply tree_file_here.
    + exists n, sub. split; [done|].
      apply (IH e He) in Hin as (d & sub' & -> & Ht).
      by eapply tree_file_below.
  - intros (d & sub' & [= <- <-] & Ht).
    inversion Ht as [top' es' e He Hd|top' es' d' sub' path' Hin Hsub]; subst.
    + left. by exists e.
    + right. exists (EntDir d' true sub'). split; [done|].
      apply (IH _ Hin). by exists d', sub'.
Qed.

Lemma walk_paths_tree (w : world) (top : string) (es : list dirent)
    (path : string) :
  scandir w top = Some es →
  In path (walk_paths (walk w top)) ↔ tree_file top es path.
Proof.
  intros Hroot. unfold walk. rewrite Hroot. cbn [walk_paths flat_map].
  fold (walk_paths (flat_map (walk_sub top) es)).
  rewrite in_app_iff, in_nondirnames, in_walk_paths_flat_map. split.
  - intros [(e & He & Hd & ->)|(e & He & Hin)]; [by apply tree_file_here|].
    apply walk_sub_paths in Hin as (d & sub & -> & Ht).
    by eapply tree_file_below.
  - intros Ht.
    inversion Ht as [top' es' e He Hd|top' es' d sub path' Hin Hsub]; subst.
    + left. by exists e.
    + right. exists (EntDir d true sub). split; [done|].
      apply walk_sub_paths. by exists d, sub.
Qed.

Lemma recursive_files_eq (self : t) (w : world)
    (start_time end_time : option Z) :
  recursive self = true →
  _list_files self w start_time end_time
  = Ok (List.filter
          (λ path, _should_include_file self path
                   && mtime_filter start_time end_time (getmtime w path))
          (walk_paths (walk w (folder_path self)))).
Proof.
  intros Hrec. unfold _list_files. rewrite Hrec. f_equal.
  unfold walk_paths.
  induction (walk w (folder_path self)) as [|[[root dirs] fns] items IH];
    [done|].
  cbn [flat_map]. rewrite List.filter_app, IH. f_equal.
  induction fns as [|fn fns IHf]; [done|].
  cbn [flat_map map List.filter]. rewrite IHf.
  destruct (_should_include_file self _); cbn [negb andb]; [|done].
  by destruct (mtime_filter _ _ _).
Qed.

Lemma recursive_files_spec (self : t) (w : world)
    (start_time end_time : option Z) (es : list dirent) :
  recursive self = true →
  scandir w (folder_path self) = Some es →
  ∃ files, _list_files self w start_time end_time = Ok files
    ∧ ∀ path, In path files ↔
        tree_file (folder_path self) es path
        ∧ _should_include_file self path = true
        ∧ mtime_filter start_time end_time (getmtime w path) = true.
Proof.
  intros Hrec Hroot. rewrite (recursive_files_eq self w _ _ Hrec).
  eexists. split; [reflexivity|]. intros path.
  rewrite List.filter_In, (walk_paths_tree w _ es path Hroot),
    andb_true_iff.
  tauto.
Qed.

(** X3.  With no time window, the recursive enumeration returns exactly
    the entries that are not directories, at any depth below the root under
    directories that can be read, that the patterns include; a directory
    that cannot be read, the root included, contributes nothing. *)
Theorem recursive_listing_membership (self : t) (w : world) :
  recursive self = true →
  ∃ files, _list_files self w None None = Ok files
    ∧ ∀ path, In path files ↔
        ∃ es, scandir w (folder_path self) = Some es
              ∧ tree_file (folder_path self) es path
              ∧ _should_include_file self path = true.
Proof.
  intros Hrec. destruct (scandir w (folder_path self)) as [es|] eqn:Hroot.
  - destruct (recursive_files_spec self w None None es Hrec Hroot)
      as (files & Hrun & Hmem).
    exists files. split; [exact Hrun|]. intros path. rewrite Hmem. split.
    + intros (Ht & Hinc & _). by exists es.
    + intros (es' & [= <-] & Ht & Hinc). by repeat split.
  - exists []. split.
    + unfold _list_files, walk. by rewrite Hrec, Hroot.
    + intros path. split; [intros []|]. by intros (es & [=] & _).
Qed.

End walking.

Section modes.
Context `{!PyLib}.
Import LocalFolderConnector.

Lemma nondirnames_regular (es : list dirent) :
  forallb is_regular es = true → nondirnames es = map ent_name es.
Proof.
  unfold nondirnames.
  induction es as [|e es IH]; intros Hreg; [done|].
  cbn [forallb] in Hreg. apply andb_true_iff in Hreg as [He Hes].
  destruct e; try discriminate.
  cbn [List.filter walk_is_dir negb map]. by rewrite (IH Hes).
Qed.

Lemma walk_sub_regular (top : string) (es : list dirent) :
  forallb is_regular es = true → flat_map (walk_sub top) es = [].
Proof.
  induction es as [|e es IH]; intros Hreg; [done|].
  cbn [forallb] in Hreg. apply andb_true_iff in Hreg as [He Hes].
  destruct e; try discriminate.
  cbn [flat_map walk_sub app]. by apply IH.
Qed.

(** X4.  On a folder that holds regular files only, the recursive and the
    flat enumeration give the same list of files, in the same order. *)
Theorem modes_agree_on_folder_of_regular_files (self_r self_f : t)
    (w : world) (start_time end_time : option Z) (es : list dirent) :
  recursive self_r = true → recursive self_f = false →
  folder_path self_r = folder_path self_f →
  file_patterns self_r = file_patterns self_f →
  scandir w (folder_path self_f) = Some es →
  forallb is_regular es = true →
  _list_files self_r w start_time end_time
  = _list_files self_f w start_time end_time.
Proof.
  intros Hr Hf Hfolder Hpat Hroot Hreg.
  pose proof (nondirnames_regular es Hreg) as Hnd.
  pose proof (walk_sub_regular (folder_path self_f) es Hreg) as Hsub.
  assert (Hok : existsb is_broken es = false).
  { clear -Hreg. induction es as [|e es IH]; [done|].
    cbn [forallb] in Hreg. apply andb_true_iff in Hreg as [He Hes].
    cbn [existsb]. rewrite (IH Hes). by destruct e. }
  unfold _list_files at 2. rewrite Hf, Hroot.
  rewrite (scan_entries_spec self_f w start_time end_time es [] Hok).
  unfold _list_files. rewrite Hr. unfold walk.
  rewrite Hfolder, Hroot, Hsub, Hnd. cbn [flat_map app]. f_equal.
  rewrite app_nil_r. clear Hnd Hsub Hok Hroot.
  induction es as [|e es IH]; [done|].
  cbn [forallb] in Hreg. apply andb_true_iff in Hreg as [He Hes].
  cbn [map flat_map]. rewrite (IH Hes). f_equal.
  unfold _should_include_file. rewrite Hpat, He. cbn [andb].
  destruct (if is_empty (file_patterns self_f) then true else _);
    cbn [negb andb]; [|done].
  by destruct (mtime_filter _ _ _).
Qed.

Lemma append_inj_r (a x y : string) : a +:+ x = a +:+ y → x = y.
Proof.
  induction a as [|c a IH]; [done|]. cbn [String.append].
  intros [= Heq]. by apply IH.
Qed.

Lemma join_inj (top n1 n2 : string) :
  os_path.startswith n1 "/" = false →
  os_path.startswith n2 "/" = false →
  os_path.join top n1 = os_path.join top n2 → n1 = n2.
Proof.
  unfold os_path.join. intros -> ->.
  destruct (_ : bool); intros Heq.
  - by apply append_inj_r in Heq.
  - apply append_inj_r in Heq. by apply append_inj_r in Heq.
Qed.

Lemma same_name_same_entry (es : list dirent) (e1 e2 : dirent) :
  NoDup (map ent_name es) → In e1 es → In e2 es →
  ent_name e1 = ent_name e2 → e1 = e2.
Proof.
  induction es as [|e es IH]; [done|]. cbn [map].
  intros Hnd [<-|H1] [<-|H2] Hname; try done.
  - apply NoDup_cons_1_1 in Hnd. exfalso. apply Hnd.
    rewrite Hname. apply list_elem_of_In, in_map, H2.
  - apply NoDup_cons_1_1 in Hnd. exfalso. apply Hnd.
    rewrite <- Hname. apply list_elem_of_In, in_map, H1.
  - apply NoDup_cons_1_2 in Hnd. by apply IH.
Qed.

(** X5.  In any folder whose entries have distinct names without a
    leading slash, an entry that is neither a directory nor a regular file
    (a socket, a dangling link) is listed by the recursive enumeration when
    the patterns include it, and it is not in the list that the flat
    enumeration returns, with or without a time window, whatever else the
    folder holds. *)
Theorem special_file_listed_by_recursive_mode_only (self_r self_f : t)
    (w : world) (es : list dirent) (name : string) :
  recursive self_r = true → recursive self_f = false →
  folder_path self_r = folder_path self_f →
  scandir w (folder_path self_f) = Some es →
  existsb is_broken es = false →
  NoDup (map ent_name es) →
  (∀ e, In e es → os_path.startswith (ent_name e) "/" = false) →
  In (EntOther name) es →
  _should_include_file self_r
    (os_path.join (folder_path self_f) name) = true →
  (∃ files, _list_files self_r w None None = Ok files
            ∧ In (os_path.join (folder_path self_f) name) files)
  ∧ (∃ files, _list_files self_f w None None = Ok files
              ∧ ¬ In (os_path.join (folder_path self_f) name) files)
  ∧ (∀ start_time end_time files,
       _list_files self_f w start_time end_time = Ok files →
       ¬ In (os_path.join (folder_path self_f) name) files).
Proof.
  intros Hr Hf Hfolder Hroot Hok Hnd Hslash Hin Hinc.
  assert (Hnever : ∀ start_time end_time files,
            _list_files self_f w start_time end_time = Ok files →
            ¬ In (os_path.join (folder_path self_f) name) files).
  { intros start_time end_time files Hrun Hlisted.
    destruct (flat_files_spec self_f w start_time end_time es Hf Hroot Hok)
      as (files' & Hrun' & Hmem).
    rewrite Hrun in Hrun'. injection Hrun' as <-.
    apply Hmem in Hlisted as (n & Hn & Heq & _).
    apply join_inj in Heq;
      [|exact (Hslash _ Hin)|exact (Hslash _ Hn)].
    subst n.
    by pose proof (same_name_same_entry es _ _ Hnd Hin Hn eq_refl). }
  split; [|split; [|exact Hnever]].
  - rewrite <- Hfolder in Hroot.
    destruct (recursive_files_spec self_r w None None es Hr Hroot)
      as (files & Hrun & Hmem).
    exists files. split; [exact Hrun|]. apply Hmem.
    rewrite Hfolder. split; [|by split].
    by apply (tree_file_here _ es (EntOther name)).
  - destruct (flat_files_spec self_f w None None es Hf Hroot Hok)
      as (files & Hrun & _).
    exists files. split; [exact Hrun|]. by eapply Hnever.
Qed.

End modes.

Section documents.
Context `{!PyLib}.
Import LocalFolderConnector.
Local Open Scope string_scope.

Lemma create_document_ok (self : t) (w : world) (path : string)
    (st : stat_result) (bs : bytes) :
  compute_hash self = true →
  stat w path = Some st → content w path = Some bs →
  ∃ doc, _create_document self w path = Ok doc
    ∧ id doc = "local_folder_" ++ SHA256.sha256_hex bs
    ∧ dict_get (metadata doc) "checksum"
      = Some (VStr (SHA256.sha256_hex bs))
    ∧ dict_get (metadata doc) "checksum_algorithm" = Some (VStr "SHA-256")
    ∧ blob doc = bs
    ∧ size_bytes doc = st_size st
    ∧ doc_updated_at doc = st_mtime st
    ∧ semantic_identifier doc = os_path.basename path.
Proof.
  intros Hhash Hst Hc. unfold _create_document.
  rewrite Hst, Hhash, (connector_hash_content w path bs Hc).
  unfold open_rb. rewrite Hc.
  cbn [of_option mbind result_bind mret result_ret].
  eexists. split; [reflexivity|]. cbn [id metadata blob size_bytes
    doc_updated_at semantic_identifier read_all data pos skipn].
  repeat split.
Qed.

Lemma create_document_raises (self : t) (w : world) (path : string) :
  (∀ e, _create_document self w path = Raise e → e = OSError)
  ∧ (_create_document self w path = Raise OSError ↔
     stat w path = None ∨ content w path = None).
Proof.
  unfold _create_document, _compute_file_hash, open_rb.
  destruct (stat w path) as [st|], (content w path) as [bs|],
    (compute_hash self);
    cbn [of_option mbind result_bind mret result_ret];
    split; try (intros e [= <-]; reflexivity); try discriminate;
    try (split; [discriminate|intros [|]; discriminate]);
    split; auto.
Qed.


Lemma yield_batches_skips (self : t) (w : world) (path : string)
    (files2 : list string) :
  ∀ (files1 : list string) (batch : list Document) (e : exn),
  _create_document self w path = Raise e →
  yield_batches self w (files1 ++ path :: files2) batch
  = yield_batches self w (files1 ++ files2) batch.
Proof.
  induction files1 as [|p files1 IH]; intros batch e Hfail.
  - cbn [app yield_batches]. by rewrite Hfail.
  - cbn [app yield_batches].
    destruct (_create_document self w p) as [doc|e']; [|by eapply IH].
    destruct (_ >=? _)%Z; [f_equal|]; by eapply IH.
Qed.

(** X8.  A listed file that cannot be [stat]ed any more when its document
    is built makes [_create_document] raise [OSError], and the batching
    loop passes over it: the batches are those of the list without that
    file. *)
Theorem unavailable_file_is_passed_over (self : t) (w : world)
    (path : string) :
  stat w path = None →
  _create_document self w path = Raise OSError
  ∧ ∀ files1 files2,
      yield_batches self w (files1 ++ path :: files2) []
      = yield_batches self w (files1 ++ files2) [].
Proof.
  intros Hst.
  assert (Hfail : _create_document self w path = Raise OSError).
  { unfold _create_document. by rewrite Hst. }
  split; [exact Hfail|].
  intros files1 files2. by eapply yield_batches_skips.
Qed.

(** X9.  Identity of documents.  With content hashing two readable files
    with the same content get the same identifier, wherever they are;
    without it the identifier is made from the relative path alone and the
    metadata carry no checksum. *)
Theorem document_identity (self : t) (w : world) (path : string)
    (doc : Document) :
  _create_document self w path = Ok doc →
  (compute_hash self = true →
     ∀ w' path' doc',
       _create_document self w' path' = Ok doc' →
       content w' path' = content w path →
       id doc' = id doc)
  ∧ (compute_hash self = false →
     id doc = "local_folder_"
              ++ md5_hexdigest (relpath path (folder_path self))
     ∧ dict_get (metadata doc) "checksum" = None).
Proof.
  intros Hdoc. split.
  - intros Hhash w' path' doc' Hdoc' Hsame.
    destruct (stat w path) as [st|] eqn:Hst.
    2:{ pose proof (proj2 (proj2 (create_document_raises
                                   self w path)) (or_introl Hst)).
        congruence. }
    destruct (content w path) as [bs|] eqn:Hc.
    2:{ pose proof (proj2 (proj2 (create_document_raises
                                   self w path)) (or_intror Hc)).
        congruence. }
    destruct (stat w' path') as [st'|] eqn:Hst'.
    2:{ pose proof (proj2 (proj2 (create_document_raises
                                   self w' path')) (or_introl Hst')).
        congruence. }
    destruct (create_document_ok self w path st bs Hhash Hst Hc)
      as (d & Hd & Hid & _).
    destruct (create_document_ok self w' path' st' bs Hhash Hst'
                Hsame) as (d' & Hd' & Hid' & _).
    rewrite Hdoc in Hd. rewrite Hdoc' in Hd'.
    injection Hd as <-. injection Hd' as <-. by rewrite Hid, Hid'.
  - intros Hhash. unfold _create_document in Hdoc. rewrite Hhash in Hdoc.
    destruct (stat w path) as [st|]; [|discriminate].
    destruct (open_rb w path) as [f|]; [|discriminate].
    cbn [of_option mbind result_bind mret result_ret] in Hdoc.
    injection Hdoc as <-. cbn [id metadata]. split; reflexivity.
Qed.

(** X10.  With a [batch_size] of zero or less every document is yielded
    at once, as a batch of its own. *)
Theorem nonpositive_batch_size_yields_singletons (self : t) (w : world)
    (files : list string) :
  (batch_size self <= 0)%Z →
  yield_batches self w files []
  = map (λ doc, [doc]) (constructed self w files).
Proof.
  intros HK. induction files as [|p files IH]; [done|].
  cbn [yield_batches]. rewrite constructed_cons.
  destruct (_create_document self w p) as [doc|e]; [|exact IH].
  cbn [app length map].
  destruct (Z.geb_spec (Z.of_nat 1) (batch_size self)); [|lia].
  by rewrite IH.
Qed.

End documents.

(** * Further properties of the watcher *)

Section startup.
Context `{!PyLib}.
Import FileChangeHandler.

Lemma trackable_ext (w : world) (self self' : t) (path : string) :
  file_patterns self' = file_patterns self →
  trackable w self' path = trackable w self path.
Proof.
  intros Hp. unfold trackable. by rewrite (should_include_ext self self').
Qed.

(** The loop of [_scan_initial_files], from any state of its variables. *)
Lemma scan_fold (w : world) (paths : list string) :
  ∀ (self : t) (count : nat) (log : list action),
  ∃ self' count',
    fold_left (scan_step w) paths (self, count, log)
    = (self', count',
       log ++ flat_map (λ p, if isfile w p && _should_include_file self p
                             then match _compute_file_hash w p with
                                  | Ok _ => []
                                  | Raise _ => [Log (ErrorScanning p)]
                                  end
                             else []) paths)
    ∧ self' = set_file_hashes self (file_hashes self')
    ∧ ∀ p, file_hashes self' !! p
           = match (if bool_decide (p ∈ paths) then trackable w self p
                    else None) with
             | Some h => Some h
             | None => file_hashes self !! p
             end.
Proof.
  induction paths as [|q paths IH]; intros self count log.
  - exists self, count. cbn [fold_left flat_map]. rewrite app_nil_r.
    split; [done|]. split; [by destruct self|].
    intros p. by rewrite bool_decide_eq_false_2 by apply not_elem_of_nil.
  - cbn [fold_left flat_map]. unfold scan_step at 2.
    destruct (isfile w q && _should_include_file self q) eqn:Hq.
    2:{ destruct (IH self count log) as (self' & count' & Hfold & Hcfg & Hh).
        exists self', count'. split; [exact Hfold|]. split; [exact Hcfg|].
        intros p. rewrite Hh.
        destruct (decide (p = q)) as [->|Hne].
        - rewrite (bool_decide_eq_true_2 (q ∈ q :: paths))
            by apply list_elem_of_here.
          unfold trackable at 2. rewrite Hq.
          case_bool_decide as Hin; [|done].
          unfold trackable. by rewrite Hq.
        - rewrite (bool_decide_ext (p ∈ q :: paths) (p ∈ paths)); [done|].
          rewrite elem_of_cons. tauto. }
    destruct (_compute_file_hash w q) as [h|e] eqn:Hhash.
    + set (self1 := set_file_hashes self (<[q:=h]> (file_hashes self))).
      destruct (IH self1 (S count) log)
        as (self' & count' & Hfold & Hcfg & Hh).
      exists self', count'. split; [|split].
      * rewrite Hfold. cbn [app]. do 2 f_equal.
      * rewrite Hcfg at 1. by destruct self.
      * intros p. rewrite Hh.
        rewrite (trackable_ext w self self1) by done.
        cbn [file_hashes self1 set_file_hashes].
        destruct (decide (p = q)) as [->|Hne].
        -- rewrite (bool_decide_eq_true_2 (q ∈ q :: paths)) by apply list_elem_of_here.
           unfold trackable. rewrite Hq, Hhash.
           case_bool_decide; [done|]. by rewrite lookup_insert_eq.
        -- rewrite (bool_decide_ext (p ∈ q :: paths) (p ∈ paths)).
           2:{ rewrite elem_of_cons. tauto. }
           destruct (if bool_decide (p ∈ paths) then trackable w self p
                     else None); [done|].
           by rewrite lookup_insert_ne.
    + destruct (IH self count (log ++ [Log (ErrorScanning q)]))
        as (self' & count' & Hfold & Hcfg & Hh).
      exists self', count'. split; [|split; [exact Hcfg|]].
      * rewrite Hfold. by rewrite <- app_assoc.
      * intros p. rewrite Hh.
        destruct (decide (p = q)) as [->|Hne].
        -- rewrite (bool_decide_eq_true_2 (q ∈ q :: paths)) by apply list_elem_of_here.
           unfold trackable at 2. rewrite Hq, Hhash.
           case_bool_decide; [|done].
           unfold trackable. by rewrite Hq, Hhash.
        -- rewrite (bool_decide_ext (p ∈ q :: paths) (p ∈ paths));
             [done|]. rewrite elem_of_cons. tauto.
Qed.

Lemma init_spec (w : world)
    (ragflow_url api_key connector_id folder_path : string)
    (file_patterns : option (list string)) (debounce_seconds : Z) :
  let self := fst (__init__ w ragflow_url api_key connector_id folder_path
                     file_patterns debounce_seconds) in
  let done := snd (__init__ w ragflow_url api_key connector_id folder_path
                     file_patterns debounce_seconds) in
  pending_changes self = []
  ∧ posts done = []
  ∧ FileChangeHandler.file_patterns self = default [] file_patterns
  ∧ FileChangeHandler.debounce_seconds self = debounce_seconds
  ∧ ∀ path h,
      file_hashes self !! path = Some h ↔
      In path (rglob w folder_path)
      ∧ isfile w path = true
      ∧ _should_include_file self path = true
      ∧ ∃ bs, content w path = Some bs ∧ h = SHA256.sha256_hex bs.
Proof.
  cbn zeta. unfold __init__, _scan_initial_files.
  set (self0 := {| ragflow_url := rstrip_sep ragflow_url;
                   api_key := api_key; connector_id := connector_id;
                   folder_path := folder_path;
                   file_patterns := default [] file_patterns;
                   debounce_seconds := debounce_seconds;
                   file_hashes := ∅; pending_changes := [] |}).
  cbn [FileChangeHandler.folder_path self0].
  destruct (scan_fold w (rglob w folder_path) self0 0
              [Log ScanningInitialFiles])
    as (self' & count' & Hfold & Hcfg & Hh).
  fold self0. rewrite Hfold. cbn [fst snd].
  assert (Hpat : FileChangeHandler.file_patterns self'
                 = FileChangeHandler.file_patterns self0)
    by (by rewrite Hcfg).
  split; [by rewrite Hcfg|]. split.
  { unfold posts. rewrite !flat_map_app. cbn [flat_map app].
    rewrite app_nil_r. clear.
    induction (rglob w folder_path) as [|p ps IH]; [done|].
    cbn [flat_map]. rewrite flat_map_app, IH, app_nil_r.
    destruct (isfile w p && _should_include_file self0 p); [|done].
    by destruct (_compute_file_hash w p). }
  split; [by rewrite Hcfg|]. split; [by rewrite Hcfg|].
  intros path h. rewrite Hh, <- list_elem_of_In. cbn [file_hashes self0].
  rewrite lookup_empty, (should_include_ext self0 self' path Hpat).
  unfold trackable, _compute_file_hash, open_rb.
  case_bool_decide as Hin.
  2:{ split; [done|]. by intros (? & _). }
  destruct (isfile w path); cbn [andb].
  2:{ split; [done|]. by intros (_ & ? & _). }
  destruct (_should_include_file self0 path).
  2:{ split; [done|]. by intros (_ & _ & ? & _). }
  destruct (content w path) as [bs|];
    cbn [mbind result_bind mret result_ret].
  - rewrite hash_blocks_fresh. split.
    + intros [= <-]. repeat split; try done. by exists bs.
    + intros (_ & _ & _ & bs' & [= <-] & ->). done.
  - split; [done|]. by intros (_ & _ & _ & bs' & ? & _).
Qed.


End startup.

Section initial_sync.
Context `{!PyLib}.
Import FileChangeHandler.
Import watcher_main.





End initial_sync.

Section live.
Context `{!PyLib}.
Import FileChangeHandler.
Local Open Scope string_scope.

Lemma set_pending_changes_same (self : t) :
  set_pending_changes self (pending_changes self) = self.
Proof. by destruct self. Qed.

(** X13.  A drain cycle at which no pending entry has been quiet for the
    debounce time does nothing at all. *)
Theorem drain_before_quiet_period_is_noop (w : world) (self : t) :
  (∀ path t0, In (path, t0) (pending_changes self) →
              (time w - t0 < debounce_seconds self)%Z) →
  process_pending_changes w self = (self, []).
Proof.
  intros Hearly. rewrite process_pending_changes_eq.
  assert (Hnone : ready_paths (time w) (debounce_seconds self)
                    (pending_changes self) = []).
  { unfold ready_paths. revert Hearly.
    generalize (pending_changes self) as d.
    induction d as [|[p t0] d IH]; intros Hearly; [done|].
    cbn [List.filter]. unfold ready at 1. cbn [snd].
    destruct (Z.geb_spec (time w - t0) (debounce_seconds self)) as [Hge|_].
    - specialize (Hearly p t0 (or_introl eq_refl)). lia.
    - apply IH. intros path t1 Hin. apply (Hearly path). by right. }
  rewrite Hnone. cbn [fold_left sync_all].
  by rewrite set_pending_changes_same.
Qed.

Lemma sync_released_path (w : world) (self : t) (path : string) :
  released_paths (snd (_sync_file_to_ragflow w self path)) = [path].
Proof. by destruct (sync_outcomes w self path). Qed.

Lemma released_paths_app (l1 l2 : list action) :
  released_paths (l1 ++ l2)
  = (released_paths l1 ++ released_paths l2)%list.
Proof. unfold released_paths. apply flat_map_app. Qed.

Lemma sync_all_released_paths (w : world) (paths : list string) :
  ∀ self : t, released_paths (snd (sync_all w self paths)) = paths.
Proof.
  induction paths as [|q paths IH]; intros self; cbn [sync_all]; [done|].
  pose proof (sync_released_path w self q) as Hq.
  destruct (_sync_file_to_ragflow w self q) as [self1 done1].
  specialize (IH self1). destruct (sync_all w self1 paths) as [self2 done2].
  cbn [snd] in *. by rewrite released_paths_app, Hq, IH.
Qed.

(** X14.  A drain cycle starts a sync attempt for exactly the pending
    paths whose entries are at least the debounce time old, once each, in
    the order of the pending table. *)
Theorem drain_syncs_ready_paths_in_table_order (w : world) (self : t) :
  released_paths (snd (process_pending_changes w self))
  = map fst
      (List.filter
         (λ kv, (time w - snd kv >=? debounce_seconds self)%Z)
         (pending_changes self)).
Proof.
  rewrite process_pending_changes_eq. apply sync_all_released_paths.
Qed.

(** X16.  After an acknowledged upload, a further sync attempt on the
    same content finds the file unchanged and uploads nothing. *)
Theorem resync_after_acknowledged_upload_is_unchanged (w w' : world)
    (self : t) (path : string) :
  In (Log (SuccessfullySynced path))
     (snd (_sync_file_to_ragflow w self path)) →
  content w' path = content w path →
  let self' := fst (_sync_file_to_ragflow w self path) in
  _sync_file_to_ragflow w' self' path
  = (self', [Log (SyncingFile path); Log (FileUnchanged path)]).
Proof.
  intros Hok Hsame. cbn zeta.
  destruct (sync_outcomes w self path)
    as [|h Hh Hold|h bs meta Hh Hold Hm Hc Hp
        |h bs meta resp Hh Hold Hm Hc Hp Hs
        |h bs meta resp Hh Hold Hm Hc Hp Hs];
    cbn [snd fst In] in *;
    try (by repeat (destruct Hok as [Hok|Hok]; [discriminate Hok|])).
  rewrite (watcher_hash_content w path bs Hc) in Hh. injection Hh as <-.
  rewrite Hc in Hsame.
  unfold _sync_file_to_ragflow at 1.
  rewrite (watcher_hash_content w' path bs Hsame).
  rewrite bool_decide_eq_true_2; [done|].
  cbn [file_hashes set_file_hashes]. apply lookup_insert_eq.
Qed.

(** X17.  What a change notification touches.  Entries of other paths are
    left alone; for a path that exists the fingerprints stay, and the path
    becomes pending with the current time exactly when it is a regular
    file that the patterns include; for a path that does not exist its
    fingerprint is dropped and the pending table stays. *)
Theorem change_notification_frame (w : world) (self : t) (path : string) :
  let self' := _handle_file_change w self path in
  (∀ q, q ≠ path →
     dict_get (pending_changes self') q = dict_get (pending_changes self) q
     ∧ file_hashes self' !! q = file_hashes self !! q)
  ∧ (exists_ w path = false →
     pending_changes self' = pending_changes self
     ∧ file_hashes self' = delete path (file_hashes self))
  ∧ (exists_ w path = true →
     file_hashes self' = file_hashes self
     ∧ if isfile w path && _should_include_file self path
       then pending_changes self'
            = dict_set (pending_changes self) path (time w)
       else self' = self).
Proof.
  cbn zeta. split; [|split].
  - intros q Hne. unfold _handle_file_change.
    destruct (exists_ w path); cbn [negb].
    + destruct (isfile w path); cbn [negb]; [|done].
      destruct (_should_include_file self path); cbn [negb]; [|done].
      cbn [pending_changes file_hashes set_pending_changes].
      split; [|done]. by apply dict_get_set_ne.
    + case_bool_decide; [|done].
      cbn [pending_changes file_hashes set_file_hashes]. split; [done|].
      by apply lookup_delete_ne.
  - intros Hex. by rewrite (handle_missing w self path Hex).
  - intros Hex. unfold _handle_file_change. rewrite Hex. cbn [negb].
    destruct (isfile w path); cbn [negb andb]; [|done].
    by destruct (_should_include_file self path).
Qed.

(** X18.  A file moved inside the watched folder: the fingerprint of the
    old path is dropped and the new path becomes pending, so the file is
    uploaded again under its new name after the quiet period. *)
Theorem moved_file_is_forgotten_and_pending (w : world) (self : t)
    (event : FileSystemEvent) :
  is_directory event = false →
  exists_ w (src_path event) = false →
  exists_ w (dest_path event) = true →
  isfile w (dest_path event) = true →
  _should_include_file self (dest_path event) = true →
  let self' := on_moved w self event in
  file_hashes self' = delete (src_path event) (file_hashes self)
  ∧ pending_changes self'
    = dict_set (pending_changes self) (dest_path event) (time w)
  ∧ dict_get (pending_changes self') (dest_path event) = Some (time w).
Proof.
  intros Hdir Hsrc Hex Hfile Hinc. cbn zeta. unfold on_moved.
  rewrite Hdir. cbn [negb]. rewrite (handle_missing w self _ Hsrc).
  unfold _handle_file_change. rewrite Hex, Hfile. cbn [negb].
  rewrite (should_include_ext self _ (dest_path event)) by done.
  rewrite Hinc. cbn [negb pending_changes file_hashes set_pending_changes
    set_file_hashes].
  split; [done|]. split; [done|]. apply dict_get_set_eq.
Qed.

(** X20.  A path that a drain cycle releases leaves the pending table
    before its sync attempt, whatever the outcome of the attempt: it is not
    pending afterwards, and a following drain cycle, with no notification
    in between, starts no sync attempt for it. *)
Theorem released_path_is_not_retried_by_next_cycle (w1 w2 : world)
    (self : t) (path : string) (t0 : Z) :
  dict_get (pending_changes self) path = Some t0 →
  (time w1 - t0 >= debounce_seconds self)%Z →
  let self1 := fst (process_pending_changes w1 self) in
  List.filter (is_release path) (snd (process_pending_changes w1 self)) ≠ []
  ∧ dict_get (pending_changes self1) path = None
  ∧ List.filter (is_release path) (snd (process_pending_changes w2 self1))
    = [].
Proof.
  intros Hget Hready. cbn zeta.
  pose proof (drain_releases w1 self path) as Hrel.
  pose proof (drain_entries w1 self path) as Hent.
  rewrite entries_get in Hget.
  destruct (entries (pending_changes self) path) as [|[k t1] ents] eqn:Hes;
    [discriminate|].
  injection Hget as ->.
  assert (Hr : ready (time w1) (debounce_seconds self) (k, t0) = true).
  { unfold ready. cbn [snd]. apply Z.geb_le. lia. }
  cbn [List.filter] in Hrel, Hent. rewrite Hr in Hrel, Hent.
  cbn [is_empty length] in Hrel, Hent.
  split; [|split].
  - intros Hnil. by rewrite Hnil in Hrel.
  - by rewrite entries_get, Hent.
  - pose proof (drain_releases w2 (fst (process_pending_changes w1 self))
                  path) as Hrel2.
    rewrite Hent in Hrel2. cbn [List.filter length] in Hrel2.
    exact (nil_length_inv _ Hrel2).
Qed.

End live.

Section urls.
Context `{!PyLib}.
Import FileChangeHandler.

Lemma rstrip_sep_slash (s : string) :
  rstrip_sep (s +:+ "/") = rstrip_sep s.
Proof.
  induction s as [|c s IH]; [reflexivity|].
  change (String c s +:+ "/") with (String c (s +:+ "/")).
  cbn [rstrip_sep]. by rewrite IH.
Qed.

Lemma rstrip_sep_no_slash (s : string) :
  os_path.endswith_sep (rstrip_sep s) = false.
Proof.
  induction s as [|c s IH]; [reflexivity|].
  cbn [rstrip_sep]. destruct (rstrip_sep s) as [|c' r'] eqn:E.
  - destruct (Ascii.eqb c os_path.sep) eqn:Hc; [reflexivity|].
    cbn [os_path.endswith_sep]. exact Hc.
  - exact IH.
Qed.

(** X19.  A slash at the end of the configured URL makes no difference to
    the handler that is built, and the URL the handler stores never ends
    with a slash, so the upload URL has exactly one slash before
    [v1/document/upload]. *)
Theorem trailing_slash_of_url_is_immaterial (w : world)
    (ragflow_url api_key connector_id folder_path : string)
    (file_patterns : option (list string)) (debounce_seconds : Z) :
  __init__ w (ragflow_url +:+ "/") api_key connector_id folder_path
    file_patterns debounce_seconds
  = __init__ w ragflow_url api_key connector_id folder_path
      file_patterns debounce_seconds
  ∧ os_path.endswith_sep
      (FileChangeHandler.ragflow_url
         (fst (__init__ w ragflow_url api_key connector_id folder_path
                 file_patterns debounce_seconds))) = false.
Proof.
  split.
  - unfold __init__. by rewrite rstrip_sep_slash.
  - pose proof (init_spec w ragflow_url api_key connector_id folder_path
                  file_patterns debounce_seconds) as _.
    unfold __init__, _scan_initial_files.
    match goal with
    | |- context [fold_left (scan_step w) ?ps (?s0, ?n, ?l)] =>
        destruct (scan_fold w ps s0 n l) as (self' & count' & -> & Hcfg & _)
    end.
    cbn [fst]. rewrite Hcfg. cbn [FileChangeHandler.ragflow_url
      set_file_hashes]. apply rstrip_sep_no_slash.
Qed.

End urls.

(** ** Instances of the properties above *)

Lemma recursive_listing_membership_witness :
  ∃ files,
    LocalFolderConnector._list_files (Scenario.connector true 10)
      Scenario3.nested None None = Ok files
    ∧ In Scenario3.sub_c_txt files.
Proof.
  destruct (recursive_listing_membership (Scenario.connector true 10)
              Scenario3.nested eq_refl) as (files & Hrun & Hmem).
  exists files. split; [exact Hrun|]. apply Hmem.
  exists [ EntFile "a.txt"; EntOther "sock";
           EntDir "sub" true [EntFile "c.txt"];
           EntDir "locked" false [] ].
  split; [reflexivity|]. split; [|vm_compute; reflexivity].
  apply (tree_file_below _ _ "sub" [EntFile "c.txt"]);
    [right; right; by left|].
  exact (tree_file_here (os_path.join Scenario.root "sub")
           [EntFile "c.txt"] (EntFile "c.txt") (or_introl eq_refl) eq_refl).
Defined.

Lemma modes_agree_on_folder_of_regular_files_witness :
  LocalFolderConnector._list_files (Scenario.connector true 10)
    Scenario.world0 None None
  = LocalFolderConnector._list_files (Scenario.connector false 10)
      Scenario.world0 None None.
Proof.
  apply (modes_agree_on_folder_of_regular_files
           (Scenario.connector true 10) (Scenario.connector false 10)
           Scenario.world0 None None [EntFile "a.txt"; EntFile "b.log"]);
    reflexivity.
Defined.

Lemma special_file_listed_by_recursive_mode_only_witness :
  (∃ files,
     LocalFolderConnector._list_files (Scenario3.plain true 10)
       Scenario3.nested None None = Ok files
     ∧ In Scenario3.sock files)
  ∧ (∃ files,
       LocalFolderConnector._list_files (Scenario3.plain false 10)
         Scenario3.nested None None = Ok files
       ∧ In Scenario.a_txt files
       ∧ ¬ In Scenario3.sock files).
Proof.
  destruct (special_file_listed_by_recursive_mode_only
              (Scenario3.plain true 10) (Scenario3.plain false 10)
              Scenario3.nested
              [ EntFile "a.txt"; EntOther "sock";
                EntDir "sub" true [EntFile "c.txt"];
                EntDir "locked" false [] ] "sock")
    as (Hrec & (files & Hrun & Hnot) & _); try reflexivity.
  - apply NoDup_ListNoDup. vm_compute.
    repeat (constructor; [cbn; intuition discriminate|]). constructor.
  - intros e [<-|[<-|[<-|[<-|[]]]]]; reflexivity.
  - right. by left.
  - split; [exact Hrec|]. exists files. split; [exact Hrun|].
    split; [|exact Hnot].
    vm_compute in Hrun. injection Hrun as <-. by left.
Defined.


Lemma unavailable_file_is_passed_over_witness :
  LocalFolderConnector.load_from_state (Scenario3.plain false 10)
    Scenario4.vanished_a
  = LocalFolderConnector.load_from_state (Scenario3.plain false 10)
      (Scenario.without_a 0).
Proof.
  assert (Hf : LocalFolderConnector._list_files (Scenario3.plain false 10)
                 Scenario4.vanished_a None None
               = Ok [Scenario.a_txt; Scenario.b_log])
    by (vm_compute; reflexivity).
  unfold LocalFolderConnector.load_from_state at 1. rewrite Hf.
  cbn [mbind result_bind mret result_ret].
  rewrite (proj2 (unavailable_file_is_passed_over (Scenario3.plain false 10)
                    Scenario4.vanished_a Scenario.a_txt eq_refl)
             [] [Scenario.b_log]).
  vm_compute. reflexivity.
Defined.

Lemma document_identity_witness :
  ∃ doc doc',
    LocalFolderConnector._create_document (Scenario.connector true 10)
      Scenario3.nested Scenario.a_txt = Ok doc
    ∧ LocalFolderConnector._create_document (Scenario.connector true 10)
        Scenario3.nested Scenario3.sub_c_txt = Ok doc'
    ∧ id doc' = id doc.
Proof.
  do 2 eexists. split; [vm_compute; reflexivity|].
  split; [vm_compute; reflexivity|].
  match goal with
  | |- id ?doc' = id ?doc =>
      assert (Hdoc : LocalFolderConnector._create_document
                       (Scenario.connector true 10) Scenario3.nested
                       Scenario.a_txt = Ok doc)
        by (vm_compute; reflexivity);
      apply (proj1 (document_identity (Scenario.connector true 10)
                      Scenario3.nested Scenario.a_txt doc Hdoc) eq_refl
               Scenario3.nested Scenario3.sub_c_txt doc')
  end; vm_compute; reflexivity.
Defined.

Lemma nonpositive_batch_size_yields_singletons_witness :
  Forall (λ b : list Document, length b = 1)
    (LocalFolderConnector.yield_batches (Scenario3.plain false 0)
       Scenario.world0 [Scenario.a_txt; Scenario.b_log] [])
  ∧ length (LocalFolderConnector.yield_batches (Scenario3.plain false 0)
              Scenario.world0 [Scenario.a_txt; Scenario.b_log] []) = 2.
Proof.
  rewrite (nonpositive_batch_size_yields_singletons
             (Scenario3.plain false 0) Scenario.world0
             [Scenario.a_txt; Scenario.b_log]) by (cbn; lia).
  split; [|vm_compute; reflexivity].
  apply Forall_map. apply Forall_true. reflexivity.
Defined.


Lemma drain_before_quiet_period_is_noop_witness :
  FileChangeHandler.process_pending_changes (Scenario.tree 1 Scenario2.ok)
    (Scenario.watcher ∅ 0)
  = (Scenario.watcher ∅ 0, []).
Proof.
  apply drain_before_quiet_period_is_noop.
  intros path t0 [[= <- <-]|[]]. cbn. lia.
Defined.

Lemma resync_after_acknowledged_upload_is_unchanged_witness :
  let w := Scenario.tree 5 Scenario2.ok in
  let h := fst (FileChangeHandler._sync_file_to_ragflow w
                  (Scenario.watcher ∅ 0) Scenario.a_txt) in
  FileChangeHandler._sync_file_to_ragflow (Scenario.tree 9 None) h
    Scenario.a_txt
  = (h, [Log (SyncingFile Scenario.a_txt);
         Log (FileUnchanged Scenario.a_txt)]).
Proof.
  cbn zeta.
  apply (resync_after_acknowledged_upload_is_unchanged
           (Scenario.tree 5 Scenario2.ok) (Scenario.tree 9 None)
           (Scenario.watcher ∅ 0) Scenario.a_txt).
  - vm_compute. right. right. by left.
  - reflexivity.
Defined.

Lemma moved_file_is_forgotten_and_pending_witness :
  let h := FileChangeHandler.on_moved (Scenario.without_a 7)
             (Scenario2.idle_watcher
                {[ Scenario.a_txt := Scenario.sha256_hello ]})
             Scenario3.moved_a_to_b in
  FileChangeHandler.file_hashes h = ∅
  ∧ FileChangeHandler.pending_changes h = [(Scenario.b_log, 7%Z)].
Proof.
  cbn zeta.
  destruct (moved_file_is_forgotten_and_pending (Scenario.without_a 7)
              (Scenario2.idle_watcher
                 {[ Scenario.a_txt := Scenario.sha256_hello ]})
              Scenario3.moved_a_to_b eq_refl eq_refl eq_refl eq_refl
              eq_refl) as (Hh & Hp & _).
  rewrite Hh, Hp. split; [|reflexivity].
  apply delete_singleton_eq.
Defined.

Lemma released_path_is_not_retried_by_next_cycle_witness :
  let h0 := Scenario.watcher ∅ 0 in
  let w5 := Scenario.tree 5 Scenario2.server_error in
  let h1 := fst (FileChangeHandler.process_pending_changes w5 h0) in
  dict_get (FileChangeHandler.pending_changes h1) Scenario.a_txt = None
  ∧ List.filter (is_release Scenario.a_txt)
      (snd (FileChangeHandler.process_pending_changes
              (Scenario.tree 6 Scenario2.ok) h1)) = [].
Proof.
  cbn zeta.
  destruct (released_path_is_not_retried_by_next_cycle
              (Scenario.tree 5 Scenario2.server_error)
              (Scenario.tree 6 Scenario2.ok)
              (Scenario.watcher ∅ 0) Scenario.a_txt 0 eq_refl)
    as (_ & Hgone & Hquiet).
  - cbn. lia.
  - split; [exact Hgone|exact Hquiet].
Defined.
